(** * Navlink tooling: CRC consistency checker and message conformance harness

    A shallow embedding of [check_navlink_crcs.py] (module [Checker]) and of
    [test_navlink_msg.py] (module [Harness]), with the properties their
    specification states about them.

    Conventions of the embedding.
    - Python [int] is [Z]; Python [str] is [string], one [ascii] per code
      point in the range U+0000..U+00FF.
    - A Python [dict] is a [gmap]; [None] is [None] of an [option].
    - Code that can raise returns a [result]: [Raise e] for an instance [e]
      of [Exception], the class the [except] clauses of both programs
      name. *)

From Stdlib Require Import ZArith String Ascii DecimalString.
From stdpp Require Import base option list sorting gmap strings.

Local Open Scope Z_scope.
Local Open Scope string_scope.
Local Open Scope list_scope.

(** ** Exceptions *)

(** The instances of Python's [Exception] class the two programs can meet. *)
Inductive exn : Type :=
  | KeyError (key : string)
  | IndexError
  | ValueError (what : string)
  | TypeError (what : string)
  | OtherException (what : string).

(** [isinstance(e, ValueError)] *)
Definition is_ValueError (e : exn) : bool :=
  match e with
  | ValueError _ => true
  | _ => false
  end.

(** [str(e)] *)
Definition exn_str (e : exn) : string :=
  match e with
  | KeyError k => k
  | IndexError => "list index out of range"
  | ValueError w => w
  | TypeError w => w
  | OtherException w => w
  end.

Inductive result (A : Type) : Type :=
  | Ok (a : A)
  | Raise (e : exn).
Arguments Ok {A} a.
Arguments Raise {A} e.

Definition rbind {A B} (r : result A) (k : A → result B) : result B :=
  match r with
  | Ok a => k a
  | Raise e => Raise e
  end.

Global Instance result_ret : MRet result := λ A a, Ok a.
Global Instance result_bind : MBind result := λ A B k r, rbind r k.

(** [for x in xs: acc = body acc x], stopping at the first exception. *)
Fixpoint for_loop {A S} (xs : list A) (body : S → A → result S) (acc : S)
  : result S :=
  match xs with
  | [] => Ok acc
  | x :: xs' => rbind (body acc x) (for_loop xs' body)
  end.

(** [str(n)] for an integer. *)
Definition str_of_int (n : Z) : string := NilZero.string_of_int (Z.to_int n).

(** ** Built-ins both programs use *)

(** White space for [str.isspace] and for [\s] of a [str] pattern: tab to
    carriage return, U+001C..U+001F, space, U+0085 and U+00A0. *)
Definition py_isspace (c : ascii) : bool :=
  let n := N_of_ascii c in
  (((9 <=? n) && (n <=? 13)) || ((28 <=? n) && (n <=? 32))
   || (n =? 133) || (n =? 160))%N.

(** The white space [int] and [float] pass over around a number: tab to
    carriage return, space, U+0085 and U+00A0 (not U+001C..U+001F). *)
Definition num_isspace (c : ascii) : bool :=
  let n := N_of_ascii c in
  (((9 <=? n) && (n <=? 13)) || (n =? 32) || (n =? 133) || (n =? 160))%N.

(** The decimal digits [int] and [float] read: ['0'..'9']. *)
Definition py_isdecimal (c : ascii) : bool :=
  let n := N_of_ascii c in ((48 <=? n) && (n <=? 57))%N.

Definition digit_value (c : ascii) : Z := Z.of_N (N_of_ascii c) - 48.

(** The text without that white space at its start, at its end, at both. *)
Fixpoint lstrip (s : string) : string :=
  match s with
  | String c s' => if num_isspace c then lstrip s' else s
  | EmptyString => EmptyString
  end.

Fixpoint rstrip (s : string) : string :=
  match s with
  | String c s' =>
      match rstrip s' with
      | EmptyString => if num_isspace c then EmptyString else String c EmptyString
      | r => String c r
      end
  | EmptyString => EmptyString
  end.

Definition strip (s : string) : string := rstrip (lstrip s).

(** Every character of [s] satisfies [p]. *)
Fixpoint string_forall (p : ascii → bool) (s : string) : bool :=
  match s with
  | String c s' => p c && string_forall p s'
  | EmptyString => true
  end.

(** The number a run of decimal digits writes, after the digits of [acc]. *)
Fixpoint digits_value_from (acc : Z) (d : string) : Z :=
  match d with
  | String c d' => digits_value_from (10 * acc + digit_value c) d'
  | EmptyString => acc
  end.

Definition digits_value (d : string) : Z := digits_value_from 0 d.

(** [digitpart ::= digit (["_"] digit)*], read from the left with the value
    [acc] of the digits before it and their count [n]: the value, the number
    of digits and the rest.  [after_digit] tells whether the last character
    read was a digit, the only place where an underscore may stand. *)
Fixpoint digitpart_from (after_digit : bool) (acc : Z) (n : nat) (s : string)
  : option (Z * nat * string) :=
  match s with
  | String c s' =>
      if py_isdecimal c then
        digitpart_from true (10 * acc + digit_value c) (S n) s'
      else if Ascii.eqb c "_" then
        if after_digit then
          match s' with
          | String c' _ =>
              if py_isdecimal c' then digitpart_from false acc n s' else None
          | EmptyString => None
          end
        else None
      else if after_digit then Some (acc, n, s) else None
  | EmptyString => if after_digit then Some (acc, n, s) else None
  end.

Definition digitpart (s : string) : option (Z * nat * string) :=
  digitpart_from false 0 0 s.

(** An optional sign: is it a minus, and the rest. *)
Definition opt_sign (s : string) : bool * string :=
  match s with
  | String "-" r => (true, r)
  | String "+" r => (false, r)
  | _ => (false, s)
  end.

(** [int(s)] for a [str] in base ten: white space around an optional sign
    and a [digitpart]; [ValueError] otherwise.  (The limit CPython 3.11 puts
    on the number of digits is not modelled.) *)
Definition py_int (s : string) : result Z :=
  let '(neg, r) := opt_sign (strip s) in
  match digitpart r with
  | Some (v, _, EmptyString) => Ok (if neg then - v else v)
  | _ => Raise (ValueError ("invalid literal for int() with base 10: " +:+ s))
  end.

(** A Python [float], by the decimal number its literal writes
    ([mantissa * 10 ^ exp10], negated when [neg]); the rounding to a binary
    double is outside the model. *)
Inductive pyfloat : Type :=
  | FNum (neg : bool) (mantissa : Z) (exp10 : Z)
  | FInf (neg : bool)
  | FNan.

(** [c in s] for a character. *)
Fixpoint contains (c : ascii) (s : string) : bool :=
  match s with
  | String c' s' => Ascii.eqb c c' || contains c s'
  | EmptyString => false
  end.

(** [str.lower] on U+0000..U+00FF. *)
Definition lower_char (c : ascii) : ascii :=
  let n := N_of_ascii c in
  if (((65 <=? n) && (n <=? 90))
      || ((192 <=? n) && (n <=? 222) && negb (n =? 215)))%N
  then ascii_of_N (n + 32) else c.

Fixpoint lower (s : string) : string :=
  match s with
  | String c s' => String (lower_char c) (lower s')
  | EmptyString => EmptyString
  end.

(** The exponent of a float literal and the end of the text:
    [[("e" | "E") [sign] digitpart]]. *)
Definition exponent_to_end (r : string) : option Z :=
  match r with
  | EmptyString => Some 0
  | String c r' =>
      if Ascii.eqb (lower_char c) "e" then
        let '(neg, r'') := opt_sign r' in
        match digitpart r'' with
        | Some (v, _, EmptyString) => Some (if neg then - v else v)
        | _ => None
        end
      else None
  end.

(** [number [exponent]] with
    [number ::= [digitpart] "." digitpart | digitpart ["."]]: the mantissa,
    as the integer its digits write, and the decimal exponent. *)
Definition float_number (r : string) : option (Z * Z) :=
  match r with
  | String "." r1 =>
      '(m, nf, r2) ← digitpart r1;
      e ← exponent_to_end r2;
      Some (m, e - Z.of_nat nf)
  | _ =>
      '(i, _, r1) ← digitpart r;
      match r1 with
      | String "." r2 =>
          match digitpart_from false i 0 r2 with
          | Some (m, nf, r3) =>
              match exponent_to_end r3 with
              | Some e => Some (m, e - Z.of_nat nf)
              | None => None
              end
          | None => e ← exponent_to_end r2; Some (i, e)
          end
      | _ => e ← exponent_to_end r1; Some (i, e)
      end
  end.

(** [float(s)] for a [str]: white space around an optional sign and
    [inf], [infinity], [nan] (in any case) or a number; [ValueError]
    otherwise. *)
Definition py_float (s : string) : result pyfloat :=
  let '(neg, r) := opt_sign (strip s) in
  let l := lower r in
  if String.eqb l "inf" || String.eqb l "infinity" then Ok (FInf neg)
  else if String.eqb l "nan" then Ok FNan
  else
    match float_number r with
    | Some (m, e) => Ok (FNum neg m e)
    | None => Raise (ValueError ("could not convert string to float: " +:+ s))
    end.

(** ** The checker: [check_navlink_crcs.py] *)
Module Checker.

(** [NAVLINK_MESSAGES], in the order the dict literal lists it. *)
Definition NAVLINK_MESSAGES : list (string * Z) :=
  [ ("CHECK_IN", 25002);
    ("CHECK_OUT", 25003);
    ("SWARM_HEARTBEAT", 25004);
    ("AVAILABLE_TASK_REQUEST", 25104);
    ("AVAILABLE_TASK_RESPONSE", 25105);
    ("TASK_ASSIGN_REQUEST", 25106);
    ("TASK_ASSIGN_RESPONSE", 25107);
    ("TASK_CONFIRM_REQUEST", 25108);
    ("TASK_CONFIRM_RESPONSE", 25109);
    ("SLOT_HEARTBEAT", 25200);
    ("SLOT_CLAIM", 25201);
    ("VOTE_PHASE", 25202);
    ("SEARCH_STATUS", 25300) ].

(** One value of a source table: [{'name': .., 'crc': .., 'len': ..}]. *)
Record descriptor : Type := Descriptor {
  name : string;
  crc : Z;
  len : Z
}.

(** The ['issue'] text of an error, as the f-string template that builds it
    together with the values it interpolates; [issue_str] is the text. *)
Inductive issue_fmt : Type :=
  | Missing_in (source_name : string)
  | CRC_mismatch (name1 : string) (crc1 : Z) (name2 : string) (crc2 : Z).

Definition issue_str (i : issue_fmt) : string :=
  match i with
  | Missing_in s => "Missing in " +:+ s
  | CRC_mismatch n1 c1 n2 c2 =>
      "CRC mismatch: " +:+ n1 +:+ "=" +:+ str_of_int c1
        +:+ " vs " +:+ n2 +:+ "=" +:+ str_of_int c2
  end.

(** One element of [errors]: [{'msg_id': .., 'name': .., 'issue': ..}]. *)
Record error : Type := Error {
  msg_id : Z;
  err_name : string;
  issue : issue_fmt
}.

(** [d[k]] on a dict keyed by message id. *)
Definition getitem (d : gmap Z descriptor) (k : Z) : result descriptor :=
  match d !! k with
  | Some v => Ok v
  | None => Raise (KeyError (str_of_int k))
  end.

(** [sorted(set(a.keys()) | set(b.keys()))] *)
Definition sorted_ids (a b : gmap Z descriptor) : list Z :=
  merge_sort Z.le (elements (dom a ∪ dom b)).

(** The body of the [for msg_id in sorted(all_ids)] loop of [compare_crcs]. *)
Definition compare_body (source1_name : string) (source1_crcs : gmap Z descriptor)
    (source2_name : string) (source2_crcs : gmap Z descriptor)
    (errors : list error) (msg_id : Z) : result (list error) :=
  if bool_decide (msg_id ∉ dom source1_crcs) then
     d2 ← getitem source2_crcs msg_id;
     Ok (errors ++ [Error msg_id (name d2) (Missing_in source1_name)])
   else if bool_decide (msg_id ∉ dom source2_crcs) then
     d1 ← getitem source1_crcs msg_id;
     Ok (errors ++ [Error msg_id (name d1) (Missing_in source2_name)])
   else
     s1 ← getitem source1_crcs msg_id;
     s2 ← getitem source2_crcs msg_id;
     if bool_decide (crc s1 ≠ crc s2) then
       Ok (errors ++ [Error msg_id (name s1)
                        (CRC_mismatch source1_name (crc s1) source2_name (crc s2))])
     else Ok errors.

(** [compare_crcs]: the pair [(errors, warnings)]; [warnings] is never
    appended to. *)
Definition compare_crcs (source1_name : string)
    (source1_crcs : option (gmap Z descriptor))
    (source2_name : string)
    (source2_crcs : option (gmap Z descriptor))
  : result (list error * list error) :=
  match source1_crcs, source2_crcs with
  | Some s1, Some s2 =>
      errors ← for_loop (sorted_ids s1 s2)
                 (compare_body source1_name s1 source2_name s2) [];
      Ok (errors, [])
  | _, _ => Ok ([], [])
  end.

(** The comparison rule in the words of the specification: what one id of
    the union contributes.  Present only in the first table: missing in the
    second, named by the first table's entry; present only in the second:
    missing in the first, named by the second table's entry; present in both
    with differing integrity codes: a mismatch reporting both values;
    otherwise nothing. *)
Definition discrepancy_rule (nameA : string) (tableA : gmap Z descriptor)
    (nameB : string) (tableB : gmap Z descriptor) (id : Z) : option error :=
  match tableA !! id, tableB !! id with
  | Some a, None => Some (Error id (name a) (Missing_in nameB))
  | None, Some b => Some (Error id (name b) (Missing_in nameA))
  | Some a, Some b =>
      if decide (crc a = crc b) then None
      else Some (Error id (name a) (CRC_mismatch nameA (crc a) nameB (crc b)))
  | None, None => None
  end.

(** How an error of [compare(A, B)] and the error of [compare(B, A)] at the
    same place correspond: the same id; a missing entry is the same report
    (same entry name, same side named); a mismatch names the same two
    sources with the same two values, in the other order. *)
Definition mirror (e e' : error) : Prop :=
  msg_id e = msg_id e' ∧
  match issue e, issue e' with
  | Missing_in s, Missing_in s' => s = s' ∧ err_name e = err_name e'
  | CRC_mismatch n1 c1 n2 c2, CRC_mismatch n1' c1' n2' c2' =>
      n1' = n2 ∧ c1' = c2 ∧ n2' = n1 ∧ c2' = c1
  | _, _ => False
  end.

(** Two descriptors that differ at most in ['len']. *)
Definition same_but_len (a b : descriptor) : Prop :=
  name a = name b ∧ crc a = crc b.

(** Two tables that disagree in each of the three ways. *)
Definition table_a : gmap Z descriptor :=
  <[25002 := Descriptor "CHECK_IN" 100 20]>
    (<[25003 := Descriptor "CHECK_OUT" 7 34]> ∅).

Definition table_b : gmap Z descriptor :=
  <[25002 := Descriptor "CHECK_IN" 101 20]>
    (<[25004 := Descriptor "SWARM_HEARTBEAT" 9 21]> ∅).

(** *** The regular expressions of [parse_c_header_crcs]

    Both patterns are sequences of literals and greedy repetitions of one
    character class, and wherever a repetition is followed by something, the
    two cannot start with the same character ([\d+] before [,] or [}],
    [\s*] before [\d] or [{]).  A greedy repetition therefore never has to
    give a character back, and the matchers below take the longest run. *)

(** [\d]: in the code point range of the model, the ten ASCII digits. *)
Definition is_digit (c : ascii) : bool := py_isdecimal c.

(** [\s] of a [str] pattern: the white space of [str.isspace]. *)
Definition is_space (c : ascii) : bool := py_isspace c.

(** [\d*], greedy: the run of digits and what follows it. *)
Fixpoint span_digits (s : string) : string * string :=
  match s with
  | String c s' =>
      if is_digit c then
        let '(d, r) := span_digits s' in (String c d, r)
      else (EmptyString, s)
  | EmptyString => (EmptyString, EmptyString)
  end.

(** [\s*], greedy: what follows the run of white space. *)
Fixpoint skip_spaces (s : string) : string :=
  match s with
  | String c s' => if is_space c then skip_spaces s' else s
  | EmptyString => EmptyString
  end.

(** [\d+] *)
Definition digits1 (s : string) : option (string * string) :=
  match span_digits s with
  | (EmptyString, _) => None
  | (d, r) => Some (d, r)
  end.

(** One literal character. *)
Definition expect (c : ascii) (s : string) : option string :=
  match s with
  | String c' r => if Ascii.eqb c c' then Some r else None
  | EmptyString => None
  end.

(** A literal string. *)
Fixpoint expect_str (lit s : string) : option string :=
  match lit with
  | EmptyString => Some s
  | String c lit' => expect c s ≫= expect_str lit'
  end.

(** [,\s*(\d+)] *)
Definition comma_field (s : string) : option (string * string) :=
  r ← expect "," s; digits1 (skip_spaces r).

(** The pattern
    [\{(\d+),\s*(\d+),\s*(\d+),\s*(\d+),\s*\d+,\s*\d+,\s*\d+\}]
    matched at the start of [s]: the four groups and the rest of [s]. *)
Definition match_entry (s : string)
  : option ((string * string * string * string) * string) :=
  r ← expect "{" s;
  '(g1, r) ← digits1 r;
  '(g2, r) ← comma_field r;
  '(g3, r) ← comma_field r;
  '(g4, r) ← comma_field r;
  '(_, r) ← comma_field r;
  '(_, r) ← comma_field r;
  '(_, r) ← comma_field r;
  r ← expect "}" r;
  Some ((g1, g2, g3, g4), r).

(** [re.findall] of that pattern: scan from the left; after a match, go on
    from the end of the match.  [skip] counts the characters of the last
    match that are still to be passed over. *)
Fixpoint findall_from (skip : nat) (s : string)
  : list (string * string * string * string) :=
  match s with
  | EmptyString => []
  | String _ s' =>
      match skip with
      | S k => findall_from k s'
      | O =>
          match match_entry s with
          | Some (e, rest) =>
              e :: findall_from (String.length s' - String.length rest) s'
          | None => findall_from 0 s'
          end
      end
  end.

Definition findall_entries (content : string)
  : list (string * string * string * string) :=
  findall_from 0 content.

(** The pattern [#define MAVLINK_MESSAGE_CRCS\s*\{\{] at the start of [s]. *)
Definition match_define (s : string) : bool :=
  match expect_str "#define MAVLINK_MESSAGE_CRCS" s with
  | Some r =>
      match skip_spaces r with
      | String "{" (String "{" _) => true
      | _ => false
      end
  | None => false
  end.

(** [re.search] of it: is there a match anywhere in [s]? *)
Fixpoint search_define (s : string) : bool :=
  match_define s ||
  match s with
  | String _ s' => search_define s'
  | EmptyString => false
  end.

(** [msg_id in NAVLINK_MESSAGES.values()] *)
Definition in_catalog (msg_id : Z) : bool :=
  bool_decide (msg_id ∈ NAVLINK_MESSAGES.*2).

(** [[k for k, v in NAVLINK_MESSAGES.items() if v == msg_id][0]] *)
Definition catalog_name (msg_id : Z) : result string :=
  match filter (λ kv, kv.2 = msg_id) NAVLINK_MESSAGES with
  | kv :: _ => Ok kv.1
  | [] => Raise IndexError
  end.

(** The body of the loop over the matches. *)
Definition entry_body (crcs : gmap Z descriptor)
    (entry : string * string * string * string) : result (gmap Z descriptor) :=
  let '(e0, e1, e2, e3) := entry in
  msg_id ← py_int e0;
  crc ← py_int e1;
  min_len ← py_int e2;
  max_len ← py_int e3;
  if in_catalog msg_id then
    name ← catalog_name msg_id;
    Ok (<[msg_id := Descriptor name crc max_len]> crcs)
  else Ok crcs.

(** [parse_c_header_crcs].  [fs] is the file system as the function sees it:
    [fs path] is the text of the file at [path], [None] when
    [os.path.exists] is false.  (A path that exists and cannot be read as
    text, a directory for one, is outside the model.) *)
Definition parse_c_header_crcs (fs : string → option string)
    (header_path : string) : result (option (gmap Z descriptor)) :=
  match fs header_path with
  | None => Ok None
  | Some content =>
      if negb (search_define content) then Ok None
      else
        crcs ← for_loop (findall_entries content) entry_body ∅;
        Ok (Some crcs)
  end.

(** What the specification says the returned table holds for [id], given
    the tuples [(id, integrity_code, min_length, max_length)] in the order
    they stand in the file: nothing for an id outside the catalog; for a
    catalog id, its catalog name with the integrity code and the maximum
    length of the tuple that carries the id (the last one, if several do). *)
Definition table_entry (tuples : list (Z * Z * Z * Z)) (id : Z)
  : option descriptor :=
  '(nm, _) ← head (filter (λ kv, kv.2 = id) NAVLINK_MESSAGES);
  '(_, c, _, max_len) ← last (filter (λ t, t.1.1.1 = id) tuples);
  Some (Descriptor nm c max_len).

(** The numbers of one match. *)
Definition entry_values (entry : string * string * string * string)
  : Z * Z * Z * Z :=
  let '(e0, e1, e2, e3) := entry in
  (digits_value e0, digits_value e1, digits_value e2, digits_value e3).

(** The text of one tuple of the table, written before [rest]: seven runs
    of digits between braces, a comma and a run of white space before each
    but the first. *)
Record tuple_text : Type := Tuple_text {
  f_id : string;
  w_crc : string;   f_crc : string;
  w_min : string;   f_min : string;
  w_max : string;   f_max : string;
  w_flags : string; f_flags : string;
  w_ofs1 : string;  f_ofs1 : string;
  w_ofs2 : string;  f_ofs2 : string
}.



Definition digit_run (d : string) : Prop :=
  d ≠ EmptyString ∧ string_forall is_digit d = true.







(** The header of the specification's example: the whole block on one line,
    one tuple for a catalog id and one for another id. *)
Definition example_header : string :=
  "#define MAVLINK_MESSAGE_CRCS {{25002, 100, 20, 20, 0, 0, 0}, {1, 50, 9, 9, 0,0,0}}".


(** A table with one entry that agrees with that header. *)
Definition example_table : gmap Z descriptor :=
  {[ 25002 := Descriptor "CHECK_IN" 100 20 ]}.

(** A file system with that header in a mavlink-router checkout at [/r] and
    nothing else. *)
Definition example_fs (p : string) : option string :=
  if String.eqb p "/r/modules/mavlink_c_library_v2/ardupilotmega/ardupilotmega.h"
  then Some example_header else None.

(** A generated header that holds the block but no tuple of the catalog, in
    an ArduPilot checkout at [/a]. *)
Definition foreign_header : string :=
  "#define MAVLINK_MESSAGE_CRCS {{0, 50, 9, 9, 0, 0, 0}, {1, 124, 31, 43, 0, 0, 0}}".

Definition foreign_fs (p : string) : option string :=
  if String.eqb p
       "/a/build/sitl/libraries/GCS_MAVLink/include/mavlink/v2.0/ardupilotmega/ardupilotmega.h"
  then Some foreign_header else None.

(** The shape of a match: four non-empty runs of digits. *)
Definition digit_groups (e : string * string * string * string) : Prop :=
  let '(g1, g2, g3, g4) := e in
  Forall (λ g, g ≠ EmptyString ∧ string_forall is_digit g = true)
    [g1; g2; g3; g4].

(** *** [main] *)

(** Truth value of [sources.get(name)]: [None] and the empty dict are false. *)
Definition truthy (o : option (gmap Z descriptor)) : bool :=
  match o with
  | Some t => negb (size t =? 0)%nat
  | None => false
  end.

(** [sources.get(name)] and [sources[name]]; a value of [sources] may itself
    be [None]. *)
Definition sources_get (sources : gmap string (option (gmap Z descriptor)))
    (k : string) : option (gmap Z descriptor) :=
  mjoin (sources !! k).

Definition sources_getitem (sources : gmap string (option (gmap Z descriptor)))
    (k : string) : result (option (gmap Z descriptor)) :=
  match sources !! k with
  | Some v => Ok v
  | None => Raise (KeyError k)
  end.

Definition pairs : list (string * string) :=
  [ ("pymavlink", "ardupilot");
    ("pymavlink", "router");
    ("ardupilot", "router") ].

(** The body of [for name1, name2 in pairs]; the state is [all_errors]. *)
Definition pair_body (sources : gmap string (option (gmap Z descriptor)))
    (all_errors : list error) (p : string * string) : result (list error) :=
  let '(name1, name2) := p in
  if truthy (sources_get sources name1) && truthy (sources_get sources name2)
  then
    s1 ← sources_getitem sources name1;
    s2 ← sources_getitem sources name2;
    '(errors, warnings) ← compare_crcs name1 s1 name2 s2;
    match errors with
    | _ :: _ => Ok (all_errors ++ errors)
    | [] => Ok all_errors
    end
  else Ok all_errors.

(** [all_errors] after the loop over [pairs]. *)
Definition compare_all_pairs
    (sources : gmap string (option (gmap Z descriptor))) : result (list error) :=
  for_loop pairs (pair_body sources) [].

(** What one pair adds to [all_errors]: the errors of its comparison when
    both tables are true, nothing when the pair is passed over. *)
Definition compared (name1 : string) (s1 : option (gmap Z descriptor))
    (name2 : string) (s2 : option (gmap Z descriptor)) : list error :=
  if truthy s1 && truthy s2 then
    match compare_crcs name1 s1 name2 s2 with
    | Ok (errors, _) => errors
    | Raise _ => []
    end
  else [].

(** The issue text mentions the source called [s]. *)
Definition names_source (i : issue_fmt) (s : string) : Prop :=
  match i with
  | Missing_in x => x = s
  | CRC_mismatch a _ b _ => a = s ∨ b = s
  end.

(** [os.path.join] of two components on a POSIX system. *)
Fixpoint ends_with_slash (a : string) : bool :=
  match a with
  | String c EmptyString => Ascii.eqb c "/"
  | String _ a' => ends_with_slash a'
  | EmptyString => false
  end.

Definition os_path_join (a b : string) : string :=
  match b with
  | String "/" _ => b
  | _ =>
      match a with
      | EmptyString => b
      | _ => if ends_with_slash a then a +:+ b else a +:+ "/" +:+ b
      end
  end.

(** What [main] reads: the table [get_pymavlink_crcs()] returns (it comes
    from the installed pymavlink package), the file system, and the two
    directories of the command line. *)
Record env : Type := Env {
  pymavlink_crcs : option (gmap Z descriptor);
  fs : string → option string;
  args_ardupilot : string;
  args_router : string
}.

Definition ardupilot_header (e : env) : string :=
  os_path_join (args_ardupilot e)
    "build/sitl/libraries/GCS_MAVLink/include/mavlink/v2.0/ardupilotmega/ardupilotmega.h".

Definition router_header (e : env) : string :=
  os_path_join (args_router e)
    "modules/mavlink_c_library_v2/ardupilotmega/ardupilotmega.h".

(** The dict [sources] once the three sources are read. *)
Definition make_sources (py ap rt : option (gmap Z descriptor))
  : gmap string (option (gmap Z descriptor)) :=
  <["router" := rt]> (<["ardupilot" := ap]> (<["pymavlink" := py]> ∅)).

Definition read_sources (e : env)
  : result (gmap string (option (gmap Z descriptor))) :=
  ap ← parse_c_header_crcs (fs e) (ardupilot_header e);
  rt ← parse_c_header_crcs (fs e) (router_header e);
  Ok (make_sources (pymavlink_crcs e) ap rt).

(** The verdict: [return 1] if [all_errors] else [return 0]. *)
Definition exit_status (all_errors : list error) : Z :=
  match all_errors with
  | _ :: _ => 1
  | [] => 0
  end.

(** [main]: the value passed to [sys.exit].  Printing is left out. *)
Definition main (e : env) : result Z :=
  sources ← read_sources e;
  all_errors ← compare_all_pairs sources;
  Ok (exit_status all_errors).

End Checker.

(** ** The conformance harness: [test_navlink_msg.py] *)
Module Harness.

(** *** [parse_params] *)

(** The values [parse_params] produces. *)
Inductive pyval : Type :=
  | VInt (n : Z)
  | VFloat (f : pyfloat)
  | VBool (b : bool)
  | VStr (s : string).

(** A character [str.isdigit] accepts: an ASCII digit or one of the
    superscripts U+00B2, U+00B3, U+00B9. *)
Definition isdigit_char (c : ascii) : bool :=
  let n := N_of_ascii c in
  (py_isdecimal c || (n =? 178) || (n =? 179) || (n =? 185))%N.

(** [s.isdigit()]: at least one character, all of them digits. *)
Definition isdigit (s : string) : bool :=
  match s with
  | EmptyString => false
  | _ => string_forall isdigit_char s
  end.

(** [s.startswith('-')] and [s[1:]] *)
Definition startswith_minus (s : string) : bool :=
  match s with
  | String "-" _ => true
  | _ => false
  end.

Definition tail (s : string) : string :=
  match s with
  | String _ s' => s'
  | EmptyString => EmptyString
  end.

(** [param.split('=', 1)] when ['=' in param]: the text before the first
    ['='] and the text after it. *)
Fixpoint split_eq (param : string) : option (string * string) :=
  match param with
  | EmptyString => None
  | String c r =>
      if Ascii.eqb c "=" then Some (EmptyString, r)
      else '(k, v) ← split_eq r; Some (String c k, v)
  end.

(** [try: body except ValueError: handler] *)
Definition try_except_ValueError {A} (body : result A) (handler : result A)
  : result A :=
  match body with
  | Raise e => if is_ValueError e then handler else Raise e
  | Ok a => Ok a
  end.

(** The [try] statement of [parse_params]: the value stored under [key]. *)
Definition convert (value : string) : result pyval :=
  try_except_ValueError
    (if contains "." value then
       f ← py_float value; Ok (VFloat f)
     else if isdigit value || (startswith_minus value && isdigit (tail value))
     then
       n ← py_int value; Ok (VInt n)
     else if bool_decide (lower value ∈ ["true"; "false"]) then
       Ok (VBool (String.eqb (lower value) "true"))
     else Ok (VStr value))
    (Ok (VStr value)).

Definition parse_params_body (result' : gmap string pyval) (param : string)
  : result (gmap string pyval) :=
  match split_eq param with
  | None => Ok result'
  | Some (key, value) => v ← convert value; Ok (<[key := v]> result')
  end.

Definition parse_params (params : list string)
  : result (gmap string pyval) :=
  for_loop params parse_params_body ∅.



(** *** Messages and sessions *)

(** A decoded message: [get_type()], [get_srcSystem()], [to_dict()]. *)
Record message : Type := Message {
  m_type : string;
  m_src : Z;
  m_fields : list (string * pyval)
}.

(** What one turn of the receive loop gets from
    [recv_match(blocking=True, timeout=0.5)]: nothing within the time, a
    message, or an exception. *)
Inductive recv_event : Type :=
  | Timeout
  | Received (m : message)
  | RecvError (e : exn).

Section Session.

(** Callbacks are opaque handles; [run cb msg] is the call [cb(msg)].  It
    may do anything to the session (register further callbacks, print) and
    to the rest of the program's state [U], and it may raise. *)
Context {callback U : Type}.

Record session : Type := Session {
  callbacks : gmap string (list callback);
  stdout : list string;
  shared : U
}.

Context (run : callback → message → session → result unit * session).

(** Computations of the receive thread: they read and change the session,
    return or raise, and leave the list of callback calls they made. *)
Definition M (A : Type) : Type :=
  session → result A * session * list (callback * message).

Definition ret {A} (a : A) : M A := λ s, (Ok a, s, []).

Definition bind {A B} (m : M A) (k : A → M B) : M B :=
  λ s,
    let '(r, s1, t1) := m s in
    match r with
    | Ok a => let '(r2, s2, t2) := k a s1 in (r2, s2, t1 ++ t2)
    | Raise e => (Raise e, s1, t1)
    end.

(** [try: body except Exception as e: handler e] *)
Definition try_except_Exception {A} (body : M A) (handler : exn → M A) : M A :=
  λ s,
    let '(r, s1, t1) := body s in
    match r with
    | Ok a => (Ok a, s1, t1)
    | Raise e => let '(r2, s2, t2) := handler e s1 in (r2, s2, t1 ++ t2)
    end.

(** [for x in xs: body x] *)
Fixpoint for_each {A} (xs : list A) (body : A → M unit) : M unit :=
  match xs with
  | [] => ret tt
  | x :: xs' => bind (body x) (λ _, for_each xs' body)
  end.

Definition print (line : string) : M unit :=
  λ s, (Ok tt, Session (callbacks s) (stdout s ++ [line]) (shared s), []).

(** [cb(msg)] *)
Definition call (cb : callback) (msg : message) : M unit :=
  λ s, let '(r, s') := run cb msg s in (r, s', [(cb, msg)]).

(** [self._callbacks.get(key, [])] *)
Definition callbacks_get (key : string) : M (list callback) :=
  λ s, (Ok (default [] (callbacks s !! key)), s, []).

(** [self._conn.recv_match(blocking=True, timeout=0.5)] *)
Definition recv_match (ev : recv_event) : M (option message) :=
  match ev with
  | Timeout => ret None
  | Received m => ret (Some m)
  | RecvError e => λ s, (Raise e, s, [])
  end.

(** [SimpleVehicle.on_message] *)
Definition on_message (msg_type : string) (cb : callback) (s : session)
  : session :=
  let cbs :=
    if bool_decide (msg_type ∉ dom (callbacks s))
    then <[msg_type := []]> (callbacks s) else callbacks s in
  Session (alter (λ l, l ++ [cb]) msg_type cbs) (stdout s) (shared s).

(** The body of the [while] loop of [_reader_loop].  [stop_set] is what
    [self._stop_evt.is_set()] answers in the outer handler. *)
Definition reader_iteration (ev : recv_event) (stop_set : bool) : M unit :=
  try_except_Exception
    (bind (recv_match ev) (λ msg,
       match msg with
       | None => ret tt
       | Some m =>
           let mtype := m_type m in
           bind (callbacks_get mtype) (λ exact,
           bind (callbacks_get "*") (λ wildcard,
           for_each (exact ++ wildcard) (λ cb,
             try_except_Exception (call cb m)
               (λ e, print ("Callback error: " +:+ exn_str e)))))
       end))
    (λ e, if stop_set then ret tt
          else print ("Reader error: " +:+ exn_str e)).

(** [_reader_loop]: one element of [turns] for each time the loop condition
    found the stop event unset. *)
Fixpoint reader_loop (turns : list (recv_event * bool)) : M unit :=
  match turns with
  | [] => ret tt
  | (ev, stop_set) :: turns' =>
      bind (reader_iteration ev stop_set) (λ _, reader_loop turns')
  end.

(** The calls the specification schedules for one turn: for a message, the
    callbacks registered for its type name, then those registered for the
    wildcard, each group in its order in the registry. *)
Definition scheduled (ev : recv_event) (s : session)
  : list (callback * message) :=
  match ev with
  | Received m =>
      (λ cb, (cb, m)) <$>
        (default [] (callbacks s !! m_type m) ++ default [] (callbacks s !! "*"))
  | _ => []
  end.

(** The calls it schedules for a run of the loop, turn after turn. *)
Fixpoint scheduled_run (turns : list (recv_event * bool)) (s : session)
  : list (callback * message) :=
  match turns with
  | [] => []
  | (ev, stop_set) :: turns' =>
      scheduled ev s
      ++ scheduled_run turns' (reader_iteration ev stop_set s).1.2
  end.

End Session.

Arguments session : clear implicits.
Arguments M : clear implicits.

(** Three callbacks for a trial run: callback 0 raises, the others count
    the messages they are given.  Callbacks 0 and 1 are registered for
    [CHECK_IN], callback 2 for every type. *)
Definition trial_run (cb : nat) (m : message) (s : session nat nat)
  : result unit * session nat nat :=
  match cb with
  | O => (Raise (OtherException "boom"), s)
  | _ => (Ok tt, Session (callbacks s) (stdout s) (S (shared s)))
  end.

Definition trial_session : session nat nat :=
  on_message "CHECK_IN" 1%nat
    (on_message "*" 2%nat
       (on_message "CHECK_IN" 0%nat (Session ∅ [] 0%nat))).

Definition trial_message : message :=
  Message "CHECK_IN" 252 [("boot_id", VInt 123)].

(** *** The driver *)

(** What the program does to the outside, in order. *)
Inductive event : Type :=
  | Print (line : string)
  | ListMessages
  | PrintHelp
  | StartReader (sys : Z)
  | Send (sys : Z) (m : message)
  | Sleep (seconds : Z)
  | Close (sys : Z).

(** The clock [time.time()] reads, in milliseconds, and the events so far. *)
Record world : Type := World {
  clock : Z;
  log : list event
}.

Definition emit (ev : event) (w : world) : world :=
  World (clock w) (log w ++ [ev]).

Definition advance (ms : Z) (w : world) : world :=
  World (clock w + ms) (log w).

Record vehicle : Type := Vehicle {
  source_system : Z;
  device : string
}.

Definition sys_tag (self : vehicle) : string :=
  "[SYS " +:+ str_of_int (source_system self) +:+ "]".

(** One call [recv_match(type='HEARTBEAT', blocking=True, timeout=1.0)] of
    the main thread: the time it took and what it returned. *)
Record poll : Type := Poll {
  elapsed : Z;
  got : option message
}.

(** When no more traffic is to come, every further call takes its whole
    second and returns [None]; the loop leaves at the first reading of the
    clock that is not before the deadline. *)
Definition idle_until (deadline : Z) (w : world) : world :=
  if (clock w <? deadline)%Z
  then advance (1000 * ((deadline - clock w + 999) / 1000)) w
  else w.

(** The [while time.time() < deadline] loop of [wait_heartbeat_from]. *)
Fixpoint wait_loop (self : vehicle) (target_sysid deadline : Z)
    (polls : list poll) (w : world) : bool * world :=
  match polls with
  | [] => (false, idle_until deadline w)
  | p :: polls' =>
      if (clock w <? deadline)%Z then
        let w1 := advance (elapsed p) w in
        match got p with
        | Some msg =>
            if (m_src msg =? target_sysid)%Z then
              (true,
               emit (Print (sys_tag self +:+ " Heartbeat from system "
                            +:+ str_of_int target_sysid)) w1)
            else wait_loop self target_sysid deadline polls' w1
        | None => wait_loop self target_sysid deadline polls' w1
        end
      else (false, w)
  end.

(** [SimpleVehicle.wait_heartbeat_from]; [timeout] in milliseconds, [polls]
    what the connection would hand to the calls of [recv_match]. *)
Definition wait_heartbeat_from (self : vehicle) (target_sysid timeout : Z)
    (polls : list poll) (w : world) : bool * world :=
  let deadline := clock w + timeout in
  wait_loop self target_sysid deadline polls w.

(** [SimpleVehicle.connect(wait_heartbeat=True, ..)]; [first] is the system
    id of the first heartbeat, [None] when none came in time. *)
Definition connect (self : vehicle) (first : option Z) (w : world)
  : bool * world :=
  let w := emit (Print (sys_tag self +:+ " Connecting to " +:+ device self
                        +:+ "...")) w in
  let w := emit (Print (sys_tag self +:+ " Waiting for heartbeat...")) w in
  match first with
  | Some target_system =>
      let w := emit (Print (sys_tag self +:+ " Got heartbeat from sysid "
                            +:+ str_of_int target_system)) w in
      (true, emit (StartReader (source_system self)) w)
  | None => (false, emit (Print (sys_tag self +:+ " No heartbeat received!")) w)
  end.

(** [SimpleVehicle.close] *)
Definition close (self : vehicle) (w : world) : world :=
  emit (Print (sys_tag self +:+ " Closed")) (emit (Close (source_system self)) w).

(** [SimpleVehicle.send_message] *)
Definition send_message (self : vehicle) (msg : message) (w : world) : world :=
  emit (Send (source_system self) msg) w.

(** The command line, as [argparse] hands it over. *)
Record args : Type := Args {
  a_list : bool;
  a_message : option string;
  a_params : list string;
  a_port1 : Z;
  a_port2 : Z;
  a_timeout : Z
}.

(** One element of [received]: receiver, sender, type. *)
Record received_record : Type := Received_record {
  receiver : Z;
  sender : Z;
  r_type : string
}.

(** What the run meets: the message classes of the dialect module, by class
    name; for each session, the first heartbeat of [connect] and the
    heartbeats its connection hands to the main thread; and what the reader
    threads have put into [received] when [main] looks at it. *)
Record environment : Type := Environment {
  dialect : string → option (gmap string pyval → result message);
  first_heartbeat : Z → option Z;
  polls_of : Z → list poll;
  received : list received_record
}.

(** [create_message]; the text of the errors is shortened. *)
Definition create_message (e : environment) (msg_name : string)
    (params : gmap string pyval) : result message :=
  let class_name := "MAVLink_" +:+ lower msg_name +:+ "_message" in
  match dialect e class_name with
  | None => Raise (ValueError ("Unknown message: " +:+ msg_name))
  | Some msg_class =>
      match msg_class params with
      | Raise (TypeError _) =>
          Raise (ValueError ("Invalid parameters for " +:+ msg_name))
      | r => r
      end
  end.

Definition vehicle1 (a : args) : vehicle :=
  Vehicle 251 ("udpin:0.0.0.0:" +:+ str_of_int (a_port1 a)).

Definition vehicle2 (a : args) : vehicle :=
  Vehicle 252 ("udpin:0.0.0.0:" +:+ str_of_int (a_port2 a)).

(** The two lines under [# Wait for cross-heartbeats], one by one and
    together: the results of the calls, which [main] drops, and the world
    after them. *)
Definition first_wait (e : environment) (a : args) (w : world) : bool * world :=
  wait_heartbeat_from (vehicle2 a) 1 10000 (polls_of e 252) w.

Definition second_wait (e : environment) (a : args) (w : world) : bool * world :=
  wait_heartbeat_from (vehicle1 a) 2 10000 (polls_of e 251) w.

Definition cross_waits (e : environment) (a : args) (w : world)
  : (bool * bool) * world :=
  let '(r2, w) := first_wait e a w in
  let '(r1, w) := second_wait e a w in
  ((r2, r1), w).

(** From [# Wait for cross-heartbeats] to the [return] of the summary.  (The
    two handlers registered just before act in the reader threads; what they
    have put into [received] by the time of the summary comes with the
    environment.) *)
Definition exchange (e : environment) (a : args) (name : string)
    (msg : message) (w : world) : Z * world :=
  let '(_, w) := cross_waits e a w in
  let w := emit (Print "----------------------------------------") w in
  let w := emit (Print ("Sending " +:+ name +:+ " from Vehicle 2...")) w in
  let w := emit (Print "----------------------------------------") w in
  let w := send_message (vehicle2 a) msg w in
  let w := emit (Sleep (a_timeout a)) (advance (1000 * a_timeout a) w) in
  match received e with
  | _ :: _ => (0, emit (Print "*** TEST PASSED ***") w)
  | [] => (1, emit (Print "*** TEST FAILED ***") w)
  end.

(** The [try] ... [finally] of [main]. *)
Definition connected_run (e : environment) (a : args) (name : string)
    (msg : message) (w : world) : Z * world :=
  let '(code, w) :=
    let '(ok1, w) := connect (vehicle1 a) (first_heartbeat e 251) w in
    if negb ok1 then (1, emit (Print "Failed to connect to vehicle 1") w)
    else
      let '(ok2, w) := connect (vehicle2 a) (first_heartbeat e 252) w in
      if negb ok2 then (1, emit (Print "Failed to connect to vehicle 2") w)
      else exchange e a name msg w in
  (code, close (vehicle2 a) (close (vehicle1 a) w)).

(** [main]: the exit status and the world it leaves.  An interrupt from the
    keyboard is not modelled; of the report, the lines that tell the course
    of the run are kept. *)
Definition main (e : environment) (a : args) (w : world) : result (Z * world) :=
  if a_list a then Ok (0, emit ListMessages w)
  else
    match a_message a with
    | None | Some EmptyString => Ok (1, emit PrintHelp w)
    | Some name =>
        params ← parse_params (a_params a);
        match create_message e name params with
        | Raise err =>
            if is_ValueError err
            then Ok (1, emit (Print ("Error: " +:+ exn_str err)) w)
            else Raise err
        | Ok msg => Ok (connected_run e a name msg w)
        end
    end.

(** A heartbeat from system [sys]. *)
Definition heartbeat (sys : Z) : message := Message "HEARTBEAT" sys [].

(** The readings of the clock at which the calls of [recv_match] start:
    the [k]-th call starts once the [k] calls before it have returned. *)
Definition start_of (k : nat) (polls : list poll) (w : world) : Z :=
  clock w + foldr Z.add 0 (elapsed <$> take k polls).

(** A call of [recv_match] that starts before the deadline hands over a
    heartbeat from [target]. *)
Definition observed (target timeout : Z) (polls : list poll) (w : world)
  : Prop :=
  ∃ k p msg,
    polls !! k = Some p ∧ got p = Some msg ∧ m_src msg = target ∧
    (start_of k polls w < clock w + timeout)%Z.

(** The lines a step has printed: those of [w'] that [w] did not have. *)
Definition printed (w w' : world) : list string :=
  omap (λ ev, match ev with Print line => Some line | _ => None end)
    (drop (length (log w)) (log w')).

(** The cross-heartbeat step as the specification words it: each wait is
    for a heartbeat whose source is the other session's identity, and a wait
    that does not see one is reported. *)
Definition waits_for_session_identities : Prop :=
  ∀ (e : environment) (a : args) (w : world),
    Forall (λ p, (0 ≤ elapsed p)%Z) (polls_of e 252) →
    Forall (λ p, (0 ≤ elapsed p)%Z) (polls_of e 251) →
    let '(r2, w2) := first_wait e a w in
    let '(r1, w1) := second_wait e a w2 in
    (r2 = true ↔
     observed (source_system (vehicle1 a)) 10000 (polls_of e 252) w) ∧
    (r1 = true ↔
     observed (source_system (vehicle2 a)) 10000 (polls_of e 251) w2) ∧
    (r2 = false → printed w w2 ≠ []) ∧
    (r1 = false → printed w2 w1 ≠ []).

(** A run in which each session is handed, a tenth of a second into its
    wait, a heartbeat that carries the other session's identity. *)
Definition identity_heartbeats : environment :=
  Environment (λ _, None) (λ _, Some 1)
    (λ sys, if (sys =? 252)%Z then [Poll 100 (Some (heartbeat 251))]
            else [Poll 100 (Some (heartbeat 252))])
    [].

Definition default_args : args :=
  Args false (Some "CHECK_IN") ["boot_id=123"] 14560 14570 5.

End Harness.

(** ** The pymavlink source of the checker: [get_pymavlink_crcs] *)
Module Dialect.
Import Checker.

(** *** [struct.calcsize] on a format that starts with ['<'] *)

(** [PY_SSIZE_T_MAX] of a 64-bit CPython. *)
Definition ssize_max : Z := 9223372036854775807.

(** The white space [struct] skips between the items of a format. *)
Definition struct_isspace (c : ascii) : bool :=
  let n := N_of_ascii c in ((n =? 32) || ((9 <=? n) && (n <=? 13)))%N.

(** The size of one item of a format code in standard mode, the mode ['<']
    selects: no code of the native mode alone ([n], [N], [P]), no
    alignment. *)
Definition code_size (c : ascii) : option Z :=
  if contains c "xcbB?sp" then Some 1
  else if contains c "hHe" then Some 2
  else if contains c "iIlLf" then Some 4
  else if contains c "qQd" then Some 8
  else None.

Definition struct_error (what : string) : exn :=
  OtherException ("struct.error: " +:+ what).

(** The loop over the items of a format: [size] is the size of the items
    read so far, [num] the repeat count being read, if any. *)
Fixpoint calcsize_loop (size : Z) (num : option Z) (fmt : string) : result Z :=
  match fmt with
  | EmptyString =>
      match num with
      | None => Ok size
      | Some _ =>
          Raise (struct_error "repeat count given without format specifier")
      end
  | String c fmt' =>
      if match num with None => struct_isspace c | Some _ => false end
      then calcsize_loop size None fmt'
      else if py_isdecimal c then
        let n := (10 * default 0 num + digit_value c)%Z in
        if (ssize_max <? n)%Z then Raise (struct_error "total struct size too long")
        else calcsize_loop size (Some n) fmt'
      else
        match code_size c with
        | None => Raise (struct_error "bad char in struct format")
        | Some itemsize =>
            let size' := (size + default 1 num * itemsize)%Z in
            if (ssize_max <? size')%Z
            then Raise (struct_error "total struct size too long")
            else calcsize_loop size' None fmt'
        end
  end.

(** [struct.calcsize('<' + fmt)] for a [str]: the format has to be ASCII and
    free of null characters. *)
Definition calcsize_le (fmt : string) : result Z :=
  if negb (string_forall (λ c, (N_of_ascii c <? 128)%N) fmt)
  then Raise (ValueError "'ascii' codec can't encode character")
  else if contains "000"%char fmt
  then Raise (struct_error "embedded null character")
  else calcsize_loop 0 None fmt.

(** *** The message classes of the dialect module *)

(** The value of a class attribute that is used as a text: a [str], or an
    object on which [replace('Z', 's')] raises, as it does on [bytes], on a
    [bytearray] and on [None]. *)
Inductive text_attr : Type :=
  | AStr (s : string)
  | ANotStr.

(** What the function reads of a message class; [None] for an attribute the
    class does not have. *)
Record msg_class : Type := Msg_class {
  native_format : option text_attr;
  fieldtypes : option (list string);
  crc_extra : option Z
}.

(** The outcome of [from pymavlink.dialects.v20 import ardupilotmega as mav]:
    the module, by the classes it has under each name, or [ImportError]. *)
Inductive import_outcome : Type :=
  | Imported (mav : string → option msg_class)
  | ImportError.

Definition AttributeError (attribute : string) : exn :=
  OtherException ("type object has no attribute '" +:+ attribute +:+ "'").

(** [s.replace(old, new)] for characters *)
Fixpoint replace (old new : ascii) (s : string) : string :=
  match s with
  | String c s' => String (if Ascii.eqb c old then new else c) (replace old new s')
  | EmptyString => EmptyString
  end.

(** [s.rstrip(chars)] for one character *)
Fixpoint rstrip_char (c : ascii) (s : string) : string :=
  match s with
  | String c' s' =>
      match rstrip_char c s' with
      | EmptyString => if Ascii.eqb c' c then EmptyString else String c' EmptyString
      | r => String c' r
      end
  | EmptyString => EmptyString
  end.

(** [s.split(sep)] for one character *)
Fixpoint split (sep : ascii) (s : string) : list string :=
  match s with
  | String c s' =>
      if Ascii.eqb c sep then EmptyString :: split sep s'
      else
        match split sep s' with
        | part :: parts => String c part :: parts
        | [] => [String c EmptyString]
        end
  | EmptyString => [EmptyString]
  end.

Definition type_sizes : gmap string Z :=
  list_to_map
    [ ("uint8_t", 1); ("int8_t", 1); ("uint16_t", 2); ("int16_t", 2);
      ("uint32_t", 4); ("int32_t", 4); ("uint64_t", 8); ("int64_t", 8);
      ("float", 4); ("double", 8); ("char", 1) ]%Z.

(** [try: msg_len = struct.calcsize(..) except: pass] *)
Definition try_except_pass (body : result Z) (msg_len : Z) : Z :=
  match body with
  | Ok n => n
  | Raise _ => msg_len
  end.

(** The length the format gives: 0 when the class has no [native_format]
    or when anything in the [try] raises. *)
Definition format_len (cls : msg_class) : Z :=
  let msg_len := 0%Z in
  match native_format cls with
  | Some a =>
      try_except_pass
        (match a with
         | AStr fmt => calcsize_le (replace "Z" "s" fmt)
         | ANotStr => Raise (TypeError "a bytes-like object is required, not 'str'")
         end)
        msg_len
  | None => msg_len
  end.

(** One turn of the loop over [fieldtypes]. *)
Definition field_body (msg_len : Z) (ft : string) : result Z :=
  if contains "[" ft then
    match split "[" (rstrip_char "]" ft) with
    | [base; count] =>
        n ← py_int count;
        Ok (msg_len + default 4 (type_sizes !! base) * n)%Z
    | _ => Raise (ValueError "too many values to unpack (expected 2)")
    end
  else Ok (msg_len + default 4 (type_sizes !! ft))%Z.

(** The length of a message class. *)
Definition class_len (cls : msg_class) : result Z :=
  let msg_len := format_len cls in
  if (msg_len =? 0)%Z then
    match fieldtypes cls with
    | Some fts => for_loop fts field_body msg_len
    | None => Raise (AttributeError "fieldtypes")
    end
  else Ok msg_len.

Definition class_name (name : string) : string :=
  "MAVLink_" +:+ lower name +:+ "_message".

(** The body of the loop over the catalog; the state is the table and the
    lines printed so far. *)
Definition message_body (mav : string → option msg_class)
    (st : gmap Z descriptor * list string) (item : string * Z)
  : result (gmap Z descriptor * list string) :=
  let '(crcs, out) := st in
  let '(name, msg_id) := item in
  match mav (class_name name) with
  | Some cls =>
      msg_len ← class_len cls;
      match crc_extra cls with
      | Some c => Ok (<[msg_id := Descriptor name c msg_len]> crcs, out)
      | None => Raise (AttributeError "crc_extra")
      end
  | None =>
      Ok (crcs, out ++ ["Warning: " +:+ name +:+ " not found in pymavlink"])
  end.

(** [get_pymavlink_crcs]: what it returns and what it prints. *)
Definition get_pymavlink_crcs (imp : import_outcome)
  : result (option (gmap Z descriptor) * list string) :=
  match imp with
  | ImportError =>
      Ok (None,
          ["Error: pymavlink not installed or ardupilotmega dialect not available"])
  | Imported mav =>
      '(crcs, out) ← for_loop NAVLINK_MESSAGES (message_body mav) (∅, []);
      Ok (Some crcs, out)
  end.

(** [main] with its first source read by [get_pymavlink_crcs]: the value
    passed to [sys.exit]. *)
Definition main (imp : import_outcome) (fs : string → option string)
    (args_ardupilot args_router : string) : result Z :=
  '(py, _) ← get_pymavlink_crcs imp;
  Checker.main (Env py fs args_ardupilot args_router).

(** A field type as the message definitions write it: a scalar of a base
    type, or an array of [count] of them, [base[count]], the count in
    decimal digits (no more of them than [int] accepts by default). *)
Inductive field : Type :=
  | Scalar (base : string)
  | Array (base count : string).

Definition field_text (f : field) : string :=
  match f with
  | Scalar base => base
  | Array base count => base +:+ "[" +:+ count +:+ "]"
  end.

Definition field_wf (f : field) : Prop :=
  match f with
  | Scalar base => contains "[" base = false
  | Array base count =>
      contains "[" base = false ∧ digit_run count ∧
      (String.length count ≤ 4300)%nat
  end.

(** The bytes a field takes: the size of its base type, 4 for a type the
    function does not know, times the length of the array. *)
Definition field_len (f : field) : Z :=
  match f with
  | Scalar base => default 4 (type_sizes !! base)
  | Array base count => default 4 (type_sizes !! base) * digits_value count
  end%Z.

(** The number of times [c] stands in [s]. *)
Fixpoint occurrences (c : ascii) (s : string) : nat :=
  match s with
  | String c' s' => (if Ascii.eqb c' c then 1 else 0) + occurrences c s'
  | EmptyString => 0
  end%nat.

(** The warning printed for a message the dialect does not have. *)
Definition warning (name : string) : string :=
  "Warning: " +:+ name +:+ " not found in pymavlink".

(** A class for which the function returns: it has [crc_extra], and either
    its format gives a length or its field types are well formed. *)
Definition class_ok (cls : msg_class) : Prop :=
  is_Some (crc_extra cls) ∧
  (format_len cls ≠ 0%Z ∨
   ∃ fields, fieldtypes cls = Some (field_text <$> fields) ∧
             Forall field_wf fields).

(** Dialects for the examples: one with a class for [CHECK_IN] only, whose
    format is a [bytearray] as pymavlink generates it; one whose class has a
    matrix among its fields. *)
Definition check_in_class : msg_class :=
  Msg_class (Some ANotStr) (Some ["uint32_t"; "uint8_t[16]"]) (Some 100%Z).

Definition check_in_only (class : string) : option msg_class :=
  if String.eqb class "MAVLink_check_in_message" then Some check_in_class
  else None.

Definition matrix_class : msg_class :=
  Msg_class None (Some ["uint32_t"; "float[3][3]"]) (Some 7%Z).

Definition matrix_dialect (class : string) : option msg_class :=
  if String.eqb class "MAVLink_vote_phase_message" then Some matrix_class
  else None.

End Dialect.

(** ** Further notions for the checker *)
Module CheckerNotions.
Import Checker.


(** Two tables agree: the same ids, and for each id the same integrity
    code. *)
Definition agree (A B : gmap Z descriptor) : Prop :=
  dom A = dom B ∧
  ∀ i a b, A !! i = Some a → B !! i = Some b → crc a = crc b.

(** The number of sources that [main] takes for readable. *)
Definition readable_count (py ap rt : option (gmap Z descriptor)) : nat :=
  length (filter (λ o, truthy o = true) [py; ap; rt]).

(** A header with a tuple of the catalog on the line before the
    [#define]. *)
Definition stray_header : string :=
  "{25003, 7, 34, 34, 0, 0, 0} #define MAVLINK_MESSAGE_CRCS {{25002, 100, 20, 20, 0, 0, 0}}".

Definition stray_tuple : tuple_text :=
  Tuple_text "25003" " " "7" " " "34" " " "34" " " "0" " " "0" " " "0".

Definition nothing_readable : env := Env None (λ _, None) "/a" "/r".

End CheckerNotions.

Module HarnessNotions.
Import Harness.

(** The value text [parse_params] last meets for [key]: the text after the
    first ['='] of the last parameter whose text before it is [key]. *)
Definition last_value (key : string) (params : list string) : option string :=
  last (omap (λ p, '(k, v) ← split_eq p;
                   if decide (k = key) then Some v else None) params).

(** What the [try] statement stores for a value text, if it returns. *)
Definition stored (value : string) : option pyval :=
  match convert value with
  | Ok v => Some v
  | Raise _ => None
  end.

End HarnessNotions.

(** ** The sessions of the harness: [SimpleVehicle], [create_handler] and
    the [try] statement of [main] *)
Module Endpoint.
Import Harness.

(** What a call raises in the main thread: an instance of [Exception], or
    the [KeyboardInterrupt] of an interrupt from the keyboard (an interrupt
    is modelled where it arrives during a call to the outside). *)
Inductive raised : Type :=
  | Exception (e : exn)
  | KeyboardInterrupt.

Inductive outcome (A : Type) : Type :=
  | Returns (a : A)
  | Raises (r : raised).

Arguments Returns {A} a.
Arguments Raises {A} r.

(** The calls the main thread makes into pymavlink, [threading] and [time]. *)
Inductive call : Type :=
  | Open (sys : Z) (device : string)
  | MAVLink (sys : Z)
  | WaitHeartbeat (sys : Z) (timeout : Z)
  | Start (sys : Z)
  | RecvMatch (sys : Z)
  | Send (sys : Z) (msg : message)
  | Sleep (seconds : Z)
  | Join (sys : Z)
  | Close (sys : Z).

(** One element of [received]. *)
Record reception : Type := Reception {
  receiver : Z;
  sender : Z;
  type : string;
  data : list (string * pyval)
}.

(** How those calls answer, by the source system of the session they are
    made for: [mavutil.mavlink_connection], [mavlink.MAVLink],
    [wait_heartbeat] (with the [target_system] of the connection when a
    heartbeat came), [Thread.start], the successive [recv_match] of the main
    thread, [mav.send], [time.sleep], [Thread.join], [close]; and what the
    reader threads have put into [received] when [main] looks at it. *)
Record externals : Type := Externals {
  mavlink_connection : Z → outcome unit;
  mavlink_MAVLink : Z → outcome unit;
  conn_wait_heartbeat : Z → outcome (option Z);
  thread_start : Z → outcome unit;
  conn_recv_match : Z → list (outcome poll);
  mav_send : Z → message → outcome unit;
  time_sleep : outcome unit;
  thread_join : Z → outcome unit;
  conn_close : Z → outcome unit;
  received : list reception
}.

(** A [SimpleVehicle] object: [source_system] and [device]; whether [_conn]
    and [_reader_th] are set (not [None]); whether [_stop_evt] is set; the
    registry, a handler being known by the [vehicle_id] it was created
    for. *)
Record SimpleVehicle : Type := Build_SimpleVehicle {
  this : vehicle;
  _conn : bool;
  _stop_evt : bool;
  _reader_th : bool;
  _callbacks : gmap string (list Z)
}.

(** [SimpleVehicle.__init__] *)
Definition __init__ (device : string) (source_system : Z) : SimpleVehicle :=
  Build_SimpleVehicle (Vehicle source_system device) false false false ∅.

(** The two variables of [main] that hold the objects. *)
Inductive ref : Type :=
  | vehicle1
  | vehicle2.

(** The state of the main thread: the clock in milliseconds, the lines
    printed, the calls made, and the two objects. *)
Record state : Type := State {
  clock : Z;
  stdout : list string;
  calls : list call;
  obj1 : SimpleVehicle;
  obj2 : SimpleVehicle
}.

Definition Run (A : Type) : Type := state → outcome A * state.

Definition ret {A} (a : A) : Run A := λ s, (Returns a, s).

Definition raise {A} (r : raised) : Run A := λ s, (Raises r, s).

Definition bind {A B} (m : Run A) (k : A → Run B) : Run B :=
  λ s,
    match m s with
    | (Returns a, s') => k a s'
    | (Raises r, s') => (Raises r, s')
    end.

Definition seq {A B} (m : Run A) (k : Run B) : Run B := bind m (λ _, k).

(** [try: body except KeyboardInterrupt: handler] *)
Definition try_except_KeyboardInterrupt {A} (body handler : Run A) : Run A :=
  λ s,
    match body s with
    | (Raises KeyboardInterrupt, s') => handler s'
    | r => r
    end.

(** [try: body finally: final]: what [body] returned or raised stands,
    unless [final] raises. *)
Definition try_finally {A} (body : Run A) (final : Run unit) : Run A :=
  λ s,
    let '(r, s1) := body s in
    match final s1 with
    | (Returns _, s2) => (r, s2)
    | (Raises e, s2) => (Raises e, s2)
    end.

Definition print (line : string) : Run unit :=
  λ s, (Returns tt,
        State (clock s) (stdout s ++ [line]) (calls s) (obj1 s) (obj2 s)).

(** A call to the outside and its answer. *)
Definition external {A} (c : call) (answer : outcome A) : Run A :=
  λ s, (answer, State (clock s) (stdout s) (calls s ++ [c]) (obj1 s) (obj2 s)).

Definition time_time : Run Z := λ s, (Returns (clock s), s).

Definition advance (ms : Z) : Run unit :=
  λ s, (Returns tt,
        State (clock s + ms) (stdout s) (calls s) (obj1 s) (obj2 s)).

Definition deref (self : ref) (s : state) : SimpleVehicle :=
  match self with
  | vehicle1 => obj1 s
  | vehicle2 => obj2 s
  end.

Definition get (self : ref) : Run SimpleVehicle :=
  λ s, (Returns (deref self s), s).

Definition set (self : ref) (f : SimpleVehicle → SimpleVehicle) : Run unit :=
  λ s, (Returns tt,
        match self with
        | vehicle1 => State (clock s) (stdout s) (calls s) (f (obj1 s)) (obj2 s)
        | vehicle2 => State (clock s) (stdout s) (calls s) (obj1 s) (f (obj2 s))
        end).

Definition set_conn (v : SimpleVehicle) : SimpleVehicle :=
  Build_SimpleVehicle (this v) true (_stop_evt v) (_reader_th v) (_callbacks v).

Definition set_stop_evt (v : SimpleVehicle) : SimpleVehicle :=
  Build_SimpleVehicle (this v) (_conn v) true (_reader_th v) (_callbacks v).

Definition set_reader_th (v : SimpleVehicle) : SimpleVehicle :=
  Build_SimpleVehicle (this v) (_conn v) (_stop_evt v) true (_callbacks v).

(** The exception of [self._conn.attr] while [self._conn] is [None]. *)
Definition NoneType_has_no (attr : string) : raised :=
  Exception
    (OtherException ("'NoneType' object has no attribute '" +:+ attr +:+ "'")).

(** [SimpleVehicle.connect]; [timeout] in seconds. *)
Definition connect (x : externals) (self : ref) (wait_heartbeat : bool)
    (timeout : Z) : Run bool :=
  bind (get self) (λ v,
  let sys := source_system (this v) in
  seq (print (sys_tag (this v) +:+ " Connecting to " +:+ device (this v)
              +:+ "..."))
  (seq (external (Open sys (device (this v))) (mavlink_connection x sys))
  (seq (set self set_conn)
  (seq (external (MAVLink sys) (mavlink_MAVLink x sys))
  (bind
     (if wait_heartbeat then
        seq (print (sys_tag (this v) +:+ " Waiting for heartbeat..."))
        (bind (external (WaitHeartbeat sys timeout) (conn_wait_heartbeat x sys))
           (λ msg,
              match msg with
              | Some target_system =>
                  seq (print (sys_tag (this v) +:+ " Got heartbeat from sysid "
                              +:+ str_of_int target_system))
                      (ret true)
              | None =>
                  seq (print (sys_tag (this v) +:+ " No heartbeat received!"))
                      (ret false)
              end))
      else ret true)
     (λ go_on,
        if go_on then
          seq (set self set_reader_th)
          (seq (external (Start sys) (thread_start x sys))
               (ret true))
        else ret false)))))).

(** [SimpleVehicle.on_message], for a handler of [create_handler]. *)
Definition on_message (self : ref) (msg_type : string) (vehicle_id : Z)
  : Run unit :=
  set self (λ v,
    let cbs :=
      if bool_decide (msg_type ∉ dom (_callbacks v))
      then <[msg_type := []]> (_callbacks v) else _callbacks v in
    Build_SimpleVehicle (this v) (_conn v) (_stop_evt v) (_reader_th v)
      (alter (λ l, l ++ [vehicle_id]) msg_type cbs)).

(** [SimpleVehicle.send_message] *)
Definition send_message (x : externals) (self : ref) (msg : message)
  : Run unit :=
  bind (get self) (λ v,
    if _conn v
    then external (Send (source_system (this v)) msg)
           (mav_send x (source_system (this v)) msg)
    else raise (NoneType_has_no "mav")).

(** The calls of [recv_match] once no more traffic is to come: each takes
    its whole second and returns [None], until the clock reaches the
    deadline. *)
Definition idle_until (sys deadline : Z) : Run unit :=
  λ s,
    let n := if (clock s <? deadline)%Z
             then ((deadline - clock s + 999) / 1000)%Z else 0%Z in
    (Returns tt,
     State (clock s + 1000 * n) (stdout s)
       (calls s ++ replicate (Z.to_nat n) (RecvMatch sys)) (obj1 s) (obj2 s)).

(** The [while time.time() < deadline] loop of [wait_heartbeat_from];
    [polls] is what the connection hands to the successive calls. *)
Fixpoint wait_loop (self : ref) (target_sysid deadline : Z)
    (polls : list (outcome poll)) : Run bool :=
  bind time_time (λ now,
  if (now <? deadline)%Z then
    bind (get self) (λ v,
    if _conn v then
      match polls with
      | [] => seq (idle_until (source_system (this v)) deadline) (ret false)
      | p :: polls' =>
          bind (external (RecvMatch (source_system (this v))) p) (λ p,
          seq (advance (elapsed p))
            (match got p with
             | Some msg =>
                 if (m_src msg =? target_sysid)%Z then
                   seq (print (sys_tag (this v) +:+ " Heartbeat from system "
                               +:+ str_of_int target_sysid))
                       (ret true)
                 else wait_loop self target_sysid deadline polls'
             | None => wait_loop self target_sysid deadline polls'
             end))
      end
    else raise (NoneType_has_no "recv_match"))
  else ret false).

(** [SimpleVehicle.wait_heartbeat_from]; [timeout] in milliseconds. *)
Definition wait_heartbeat_from (x : externals) (self : ref)
    (target_sysid timeout : Z) : Run bool :=
  bind time_time (λ now,
  let deadline := (now + timeout)%Z in
  bind (get self) (λ v,
  wait_loop self target_sysid deadline
    (conn_recv_match x (source_system (this v))))).

(** [SimpleVehicle.close] *)
Definition close (x : externals) (self : ref) : Run unit :=
  seq (set self set_stop_evt)
  (bind (get self) (λ v,
   let sys := source_system (this v) in
   seq (if _reader_th v then external (Join sys) (thread_join x sys)
        else ret tt)
   (seq (if _conn v then external (Close sys) (conn_close x sys) else ret tt)
        (print (sys_tag (this v) +:+ " Closed"))))).

Fixpoint print_all (lines : list string) : Run unit :=
  match lines with
  | [] => ret tt
  | line :: lines' => seq (print line) (print_all lines')
  end.

Definition nl : string := String "010" EmptyString.

Definition rule (c : ascii) (n : nat) : string :=
  string_of_list_ascii (replicate n c).

(** The body of the [try] statement of [main]. *)
Definition main_body (x : externals) (a : args) (message : string)
    (msg : Harness.message) : Run Z :=
  bind (connect x vehicle1 true 10) (λ ok1,
  if negb ok1 then seq (print "Failed to connect to vehicle 1") (ret 1%Z)
  else
  bind (connect x vehicle2 true 10) (λ ok2,
  if negb ok2 then seq (print "Failed to connect to vehicle 2") (ret 1%Z)
  else
  seq (on_message vehicle1 "*" 1)
  (seq (on_message vehicle2 "*" 2)
  (seq (wait_heartbeat_from x vehicle2 1 10000)
  (seq (wait_heartbeat_from x vehicle1 2 10000)
  (seq (print (rule "-" 40))
  (seq (print ("Sending " +:+ message +:+ " from Vehicle 2..."))
  (seq (print (rule "-" 40))
  (seq (send_message x vehicle2 msg)
  (seq (print (nl +:+ "Waiting " +:+ str_of_int (a_timeout a)
               +:+ " seconds for message routing..."))
  (seq (external (Sleep (a_timeout a)) (time_sleep x))
  (seq (advance (1000 * a_timeout a))
  (seq (print (nl +:+ rule "=" 60))
  (seq (print "TEST RESULTS")
  (seq (print (rule "=" 60))
  (match received x with
   | _ :: _ =>
       seq (print_all
              ((λ r, "  Vehicle " +:+ str_of_int (receiver r) +:+ " <- SYS "
                     +:+ str_of_int (sender r) +:+ ": " +:+ type r)
                 <$> received x))
       (seq (print (nl +:+ "Total messages received: "
                    +:+ str_of_int (Z.of_nat (length (received x)))))
       (seq (print (nl +:+ "*** TEST PASSED ***"))
            (ret 0%Z)))
   | [] =>
       seq (print "  No messages received!")
       (seq (print (nl +:+ "*** TEST FAILED ***"))
            (ret 1%Z))
   end)))))))))))))))).

(** The [try] statement of [main], with its [except KeyboardInterrupt] and
    its [finally]: the exit status [main] returns, or what it raises. *)
Definition main_try (x : externals) (a : args) (message : string)
    (msg : Harness.message) : Run Z :=
  try_finally
    (try_except_KeyboardInterrupt
       (main_body x a message msg)
       (seq (print (nl +:+ "Interrupted")) (ret 1%Z)))
    (seq (close x vehicle1) (close x vehicle2)).

(** The state when [main] enters the [try] statement: the two objects as
    [SimpleVehicle(f"udpin:0.0.0.0:{port}", source_system=..)] makes them. *)
Definition entry (a : args) (now : Z) (out : list string) : state :=
  State now out []
    (__init__ ("udpin:0.0.0.0:" +:+ str_of_int (a_port1 a)) 251)
    (__init__ ("udpin:0.0.0.0:" +:+ str_of_int (a_port2 a)) 252).

(** *** [create_handler] and the reader thread *)

Section Handler.

(** [target_msg_type], the upper-cased name of the message under test, and
    the text [print] writes for the dict [msg.to_dict()]. *)
Context (target_msg_type : string).
Context (dict_str : list (string * pyval) → string).

(** [handler(msg)] of [create_handler(vehicle_id)]; it prints and appends
    to the list [received] that the two reader threads share. *)
Definition handler (vehicle_id : Z) (msg : message)
    (s : session Z (list reception))
  : result unit * session Z (list reception) :=
  let msg_type := m_type msg in
  if String.eqb msg_type target_msg_type then
    (Ok tt,
     Session (callbacks s)
       (Harness.stdout s
        ++ ["[VEHICLE " +:+ str_of_int vehicle_id +:+ "] <- [SYS "
            +:+ str_of_int (m_src msg) +:+ "] " +:+ msg_type +:+ ": "
            +:+ dict_str (m_fields msg)])
       (shared s
        ++ [Reception vehicle_id (m_src msg) msg_type (m_fields msg)]))
  else (Ok tt, s).

(** What a run of turns of the reader of vehicle [vehicle_id] is to add to
    [received]: an element for each message of the target type. *)
Definition receptions (vehicle_id : Z) (turns : list (recv_event * bool))
  : list reception :=
  omap (λ turn : recv_event * bool,
          match turn.1 with
          | Received msg =>
              if String.eqb (m_type msg) target_msg_type
              then Some (Reception vehicle_id (m_src msg) (m_type msg)
                           (m_fields msg))
              else None
          | _ => None
          end) turns.

End Handler.

(** The session of source system [sys] gets connected: its four calls in
    [connect] return, the third one with a heartbeat. *)
Definition connected (x : externals) (sys : Z) : Prop :=
  mavlink_connection x sys = Returns tt ∧
  mavlink_MAVLink x sys = Returns tt ∧
  (∃ target_system, conn_wait_heartbeat x sys = Returns (Some target_system)) ∧
  thread_start x sys = Returns tt.

(** One of the calls for the two sessions answers by raising [r]. *)
Definition raised_by (x : externals) (r : raised) : Prop :=
  (∃ sys, (sys = 251 ∨ sys = 252)%Z ∧
     (mavlink_connection x sys = Raises r ∨
      mavlink_MAVLink x sys = Raises r ∨
      conn_wait_heartbeat x sys = Raises r ∨
      thread_start x sys = Raises r ∨
      Raises r ∈ conn_recv_match x sys ∨
      thread_join x sys = Raises r ∨
      conn_close x sys = Raises r)) ∨
  (∃ msg, mav_send x 252%Z msg = Raises r) ∨
  time_sleep x = Raises r.

Definition is_Send (c : call) : bool :=
  match c with
  | Send _ _ => true
  | _ => false
  end.

(** Answers for an example: every call returns, heartbeats come, nothing
    is received; and the same with a port that cannot be opened for the
    second session. *)
Definition quiet_run : externals :=
  Externals (λ _, Returns tt) (λ _, Returns tt) (λ _, Returns (Some 1%Z))
    (λ _, Returns tt) (λ _, []) (λ _ _, Returns tt) (Returns tt)
    (λ _, Returns tt) (λ _, Returns tt) [].

Definition port_in_use : externals :=
  Externals
    (λ sys, if (sys =? 252)%Z
            then Raises (Exception (OtherException "Address already in use"))
            else Returns tt)
    (λ _, Returns tt) (λ _, Returns (Some 1%Z))
    (λ _, Returns tt) (λ _, []) (λ _ _, Returns tt) (Returns tt)
    (λ _, Returns tt) (λ _, Returns tt) [].

End Endpoint.

(** * Properties *)

(** ** [int] on runs of digits *)
Module BuiltinSpec.


Lemma isdecimal_not_num_space c :
  py_isdecimal c = true → num_isspace c = false.
Proof. by destruct c as [[] [] [] [] [] [] [] []]. Qed.

Lemma isdecimal_not_sign c :
  py_isdecimal c = true →
  Ascii.eqb c "-" = false ∧ Ascii.eqb c "+" = false ∧ Ascii.eqb c "_" = false.
Proof. by destruct c as [[] [] [] [] [] [] [] []]. Qed.

Lemma lstrip_digits d : string_forall py_isdecimal d = true → lstrip d = d.
Proof.
  destruct d as [|c d]; [done|]. simpl.
  intros [Hc _]%andb_true_iff. by rewrite (isdecimal_not_num_space c Hc).
Qed.

Lemma rstrip_digits d : string_forall py_isdecimal d = true → rstrip d = d.
Proof.
  induction d as [|c d IH]; [done|]. simpl.
  intros [Hc Hd]%andb_true_iff. rewrite (IH Hd).
  destruct d; [|done]. by rewrite (isdecimal_not_num_space c Hc).
Qed.

Lemma digitpart_from_digits d b acc n :
  string_forall py_isdecimal d = true →
  b = true ∨ d ≠ EmptyString →
  digitpart_from b acc n d
  = Some (digits_value_from acc d, (n + String.length d)%nat, EmptyString).
Proof.
  revert b acc n. induction d as [|c d IH]; intros b acc n Hd Hb; simpl.
  - destruct Hb as [->|]; [|done]. by rewrite Nat.add_0_r.
  - simpl in Hd. apply andb_true_iff in Hd as [Hc Hd]. rewrite Hc.
    rewrite IH by auto. by rewrite Nat.add_succ_r.
Qed.

(** [int] of a non-empty run of ASCII digits is the number they write. *)
Lemma py_int_digits d :
  d ≠ EmptyString → string_forall py_isdecimal d = true →
  py_int d = Ok (digits_value d).
Proof.
  intros Hne Hd. unfold py_int, strip.
  rewrite (lstrip_digits d Hd), (rstrip_digits d Hd).
  assert (opt_sign d = (false, d)) as ->.
  { destruct d as [|c d]; [done|]. simpl in Hd.
    apply andb_true_iff in Hd as [Hc _].
    by destruct c as [[] [] [] [] [] [] [] []]. }
  unfold digitpart. rewrite digitpart_from_digits by auto. done.
Qed.



End BuiltinSpec.

(** ** The comparator *)
Module CheckerSpec.
Import Checker.

Lemma getitem_lookup (d : gmap Z descriptor) k v :
  d !! k = Some v → getitem d k = Ok v.
Proof. unfold getitem. by intros ->. Qed.

(** One turn of the loop does what the rule says, for an id that is a key
    of one of the tables. *)
Lemma compare_body_rule n1 (A : gmap Z descriptor) n2 (B : gmap Z descriptor)
    errors i :
  i ∈ dom A ∪ dom B →
  compare_body n1 A n2 B errors i
  = Ok (errors ++ option_list (discrepancy_rule n1 A n2 B i)).
Proof.
  intros Hi. unfold compare_body, discrepancy_rule.
  destruct (A !! i) as [a|] eqn:HA; destruct (B !! i) as [b|] eqn:HB.
  - rewrite bool_decide_eq_false_2 by (rewrite elem_of_dom, HA; eauto).
    rewrite bool_decide_eq_false_2 by (rewrite elem_of_dom, HB; eauto).
    rewrite (getitem_lookup _ _ _ HA), (getitem_lookup _ _ _ HB). simpl.
    destruct (decide (crc a = crc b)) as [Heq|Hne].
    + rewrite bool_decide_eq_false_2 by tauto. simpl. by rewrite app_nil_r.
    + by rewrite bool_decide_eq_true_2.
  - rewrite bool_decide_eq_false_2 by (rewrite elem_of_dom, HA; eauto).
    rewrite bool_decide_eq_true_2 by (by rewrite not_elem_of_dom).
    by rewrite (getitem_lookup _ _ _ HA).
  - rewrite bool_decide_eq_true_2 by (by rewrite not_elem_of_dom).
    by rewrite (getitem_lookup _ _ _ HB).
  - exfalso. apply elem_of_union in Hi as [Hi|Hi];
      apply elem_of_dom in Hi as [? Hi]; congruence.
Qed.

Lemma for_loop_rule n1 (A : gmap Z descriptor) n2 (B : gmap Z descriptor)
    ids errors :
  Forall (λ i, i ∈ dom A ∪ dom B) ids →
  for_loop ids (compare_body n1 A n2 B) errors
  = Ok (errors ++ omap (discrepancy_rule n1 A n2 B) ids).
Proof.
  intros Hids. revert errors.
  induction Hids as [|i ids Hi _ IH]; intros errors; simpl.
  - by rewrite app_nil_r.
  - rewrite compare_body_rule by done. simpl. rewrite IH.
    destruct (discrepancy_rule n1 A n2 B i); simpl; [|by rewrite app_nil_r].
    by rewrite <- app_assoc.
Qed.

(** [sorted(all_ids)] lists each key of the union once, in ascending order. *)
Lemma sorted_ids_elem_of (A B : gmap Z descriptor) i :
  i ∈ sorted_ids A B ↔ i ∈ dom A ∨ i ∈ dom B.
Proof.
  unfold sorted_ids. rewrite merge_sort_Permutation, elem_of_elements.
  apply elem_of_union.
Qed.

Lemma Sorted_le_NoDup_lt (l : list Z) :
  Sorted Z.le l → NoDup l → StronglySorted Z.lt l.
Proof.
  intros Hs%Sorted_StronglySorted Hnd; [|apply _].
  induction l as [|x l IH]; [constructor|].
  apply StronglySorted_cons in Hs as [Hx Hs].
  apply NoDup_cons in Hnd as [Hnx Hnd].
  constructor; [by apply IH|].
  apply Forall_forall. intros y Hy.
  rewrite Forall_forall in Hx. specialize (Hx y Hy).
  assert (x ≠ y) by (intros ->; done). lia.
Qed.

Lemma sorted_ids_ascending (A B : gmap Z descriptor) :
  StronglySorted Z.lt (sorted_ids A B).
Proof.
  apply Sorted_le_NoDup_lt.
  - apply (Sorted_merge_sort Z.le).
  - unfold sorted_ids. rewrite merge_sort_Permutation. apply NoDup_elements.
Qed.

Lemma sorted_ids_comm (A B : gmap Z descriptor) :
  sorted_ids A B = sorted_ids B A.
Proof. unfold sorted_ids. by rewrite (comm_L (∪) (dom A)). Qed.

(** [compare_crcs] on two tables returns, and returns what the rule gives
    along [sorted_ids]. *)
Lemma compare_crcs_rule n1 (A : gmap Z descriptor) n2 (B : gmap Z descriptor) :
  compare_crcs n1 (Some A) n2 (Some B)
  = Ok (omap (discrepancy_rule n1 A n2 B) (sorted_ids A B), []).
Proof.
  unfold compare_crcs. unfold mbind, result_bind.
  rewrite for_loop_rule; [done|].
  apply Forall_forall. intros i Hi. apply elem_of_union.
  by apply sorted_ids_elem_of.
Qed.

(** C4: on two tables, [compare_crcs] goes through the ids of the union of
    the key sets in ascending order, each once, and reports for each id what
    the rule of the specification gives: missing in the second source (name
    of the first table's entry), missing in the first source (name of the
    second table's entry), a mismatch with both values, or nothing. *)
Theorem compare_crcs_visits_union_ascending
    n1 (A : gmap Z descriptor) n2 (B : gmap Z descriptor) :
  ∃ ids : list Z,
    StronglySorted Z.lt ids ∧
    (∀ i, i ∈ ids ↔ i ∈ dom A ∨ i ∈ dom B) ∧
    compare_crcs n1 (Some A) n2 (Some B)
    = Ok (omap (discrepancy_rule n1 A n2 B) ids, []).
Proof.
  exists (sorted_ids A B). split; [apply sorted_ids_ascending|].
  split; [apply sorted_ids_elem_of|apply compare_crcs_rule].
Qed.

Example compare_crcs_example :
  compare_crcs "pymavlink" (Some table_a) "router" (Some table_b)
  = Ok ([ Error 25002 "CHECK_IN" (CRC_mismatch "pymavlink" 100 "router" 101);
          Error 25003 "CHECK_OUT" (Missing_in "router");
          Error 25004 "SWARM_HEARTBEAT" (Missing_in "pymavlink") ], []) ∧
  issue_str (CRC_mismatch "pymavlink" 100 "router" 101)
  = "CRC mismatch: pymavlink=100 vs router=101" ∧
  issue_str (Missing_in "router") = "Missing in router".
Proof. by vm_compute. Qed.

(** C5: when one of the two tables is [None], [compare_crcs] returns the
    empty list of errors (and of warnings); it does not raise. *)
Theorem compare_crcs_absent n1 (A : option (gmap Z descriptor)) n2
    (B : option (gmap Z descriptor)) :
  A = None ∨ B = None → compare_crcs n1 A n2 B = Ok ([], []).
Proof. intros [-> | ->]; [done|by destruct A]. Qed.

Lemma compare_crcs_absent_witness :
  (@None (gmap Z descriptor) = None ∨
   Some ({[ 25002 := Descriptor "CHECK_IN" 100 20 ]} : gmap Z descriptor) = None) ∧
  compare_crcs "pymavlink" None
    "router" (Some {[ 25002 := Descriptor "CHECK_IN" 100 20 ]})
  = Ok ([], []).
Proof.
  split; [left; reflexivity|].
  apply compare_crcs_absent. left. reflexivity.
Defined.

Lemma discrepancy_rule_msg_id n1 (A : gmap Z descriptor) n2
    (B : gmap Z descriptor) i e :
  discrepancy_rule n1 A n2 B i = Some e → msg_id e = i.
Proof.
  unfold discrepancy_rule.
  destruct (A !! i), (B !! i); try case_decide; intros; by simplify_eq.
Qed.

Lemma omap_all_None {X Y} (f : X → option Y) (l : list X) :
  (∀ x, x ∈ l → f x = None) → omap f l = [].
Proof.
  induction l as [|x l IH]; intros Hf; [done|]. simpl.
  rewrite (Hf x) by left. apply IH. intros y Hy. apply Hf. by right.
Qed.

(** C3: for an id that both tables have with equal ['crc'] and differing
    ['len'], [compare_crcs] reports nothing; two tables that are the same up
    to their ['len'] values compare without any error. *)
Theorem compare_crcs_ignores_length
    n1 (A : gmap Z descriptor) n2 (B : gmap Z descriptor) :
  (∀ i a b,
     A !! i = Some a → B !! i = Some b → crc a = crc b → len a ≠ len b →
     ∃ errors,
       compare_crcs n1 (Some A) n2 (Some B) = Ok (errors, []) ∧
       ∀ e, e ∈ errors → msg_id e ≠ i) ∧
  ((∀ i, option_Forall2 same_but_len (A !! i) (B !! i)) →
   compare_crcs n1 (Some A) n2 (Some B) = Ok ([], [])).
Proof.
  split.
  - intros i a b HA HB Hcrc _. eexists. split; [apply compare_crcs_rule|].
    intros e [j [Hj He]]%list_elem_of_omap Hid.
    rewrite (discrepancy_rule_msg_id _ _ _ _ _ _ He) in Hid. subst j.
    unfold discrepancy_rule in He.
    rewrite HA, HB in He. by rewrite decide_True in He.
  - intros Hsame. rewrite compare_crcs_rule.
    rewrite omap_all_None; [done|]. intros i _. unfold discrepancy_rule.
    specialize (Hsame i).
    destruct Hsame as [a b [_ Hcrc]|]; [by rewrite decide_True|done].
Qed.

Lemma compare_crcs_ignores_length_witness :
  (∃ errors,
     compare_crcs "pymavlink"
       (Some {[ 25104 := Descriptor "AVAILABLE_TASK_REQUEST" 77 30 ]})
       "router"
       (Some {[ 25104 := Descriptor "AVAILABLE_TASK_REQUEST" 77 155 ]})
     = Ok (errors, []) ∧
     ∀ e, e ∈ errors → msg_id e ≠ 25104) ∧
  compare_crcs "pymavlink"
    (Some {[ 25104 := Descriptor "AVAILABLE_TASK_REQUEST" 77 30 ]})
    "router"
    (Some {[ 25104 := Descriptor "AVAILABLE_TASK_REQUEST" 77 155 ]})
  = Ok ([], []).
Proof.
  split.
  - eapply (proj1 (compare_crcs_ignores_length _ _ _ _) 25104).
    + apply lookup_singleton_eq.
    + apply lookup_singleton_eq.
    + reflexivity.
    + simpl. lia.
  - apply (proj2 (compare_crcs_ignores_length _ _ _ _)). intros i.
    destruct (decide (i = 25104)) as [->|Hne].
    + rewrite !lookup_singleton_eq. constructor. split; reflexivity.
    + rewrite !lookup_singleton_ne by done. constructor.
Defined.

Lemma discrepancy_rule_mirror n1 (A : gmap Z descriptor) n2
    (B : gmap Z descriptor) i :
  option_Forall2 mirror
    (discrepancy_rule n1 A n2 B i) (discrepancy_rule n2 B n1 A i).
Proof.
  unfold discrepancy_rule.
  destruct (A !! i) as [a|], (B !! i) as [b|]; try by repeat constructor.
  destruct (decide (crc a = crc b)) as [Heq|Hne].
  - rewrite decide_True by done. constructor.
  - rewrite decide_False by congruence. by repeat constructor.
Qed.

Lemma Forall2_omap_pointwise {X Y} (R : relation Y) (f g : X → option Y) l :
  (∀ x, option_Forall2 R (f x) (g x)) → Forall2 R (omap f l) (omap g l).
Proof.
  intros Hfg. induction l as [|x l IH]; simpl; [constructor|].
  destruct (Hfg x); [by constructor|done].
Qed.

Lemma Forall2_mirror_msg_id e12 e21 :
  Forall2 mirror e12 e21 → msg_id <$> e12 = msg_id <$> e21.
Proof.
  induction 1 as [|e e' l l' [Hid _] _ IH]; [done|].
  rewrite !fmap_cons. by rewrite Hid, IH.
Qed.

(** C2: the two call orders report the same ids, in the same order; an id
    that one table lacks is reported in both orders as missing in the source
    that lacks it (the second source of one call, the first of the other),
    with the same entry name; a ['crc'] mismatch is reported in both orders
    with the same two values, each next to its own source's name. *)
Theorem compare_crcs_symmetric
    n1 (A : gmap Z descriptor) n2 (B : gmap Z descriptor) :
  ∃ e12 e21,
    compare_crcs n1 (Some A) n2 (Some B) = Ok (e12, []) ∧
    compare_crcs n2 (Some B) n1 (Some A) = Ok (e21, []) ∧
    msg_id <$> e12 = msg_id <$> e21 ∧
    Forall2 mirror e12 e21 ∧
    (∀ i a, A !! i = Some a → B !! i = None →
       Error i (name a) (Missing_in n2) ∈ e12 ∧
       Error i (name a) (Missing_in n2) ∈ e21) ∧
    (∀ i b, A !! i = None → B !! i = Some b →
       Error i (name b) (Missing_in n1) ∈ e12 ∧
       Error i (name b) (Missing_in n1) ∈ e21) ∧
    (∀ i a b, A !! i = Some a → B !! i = Some b → crc a ≠ crc b →
       Error i (name a) (CRC_mismatch n1 (crc a) n2 (crc b)) ∈ e12 ∧
       Error i (name b) (CRC_mismatch n2 (crc b) n1 (crc a)) ∈ e21).
Proof.
  exists (omap (discrepancy_rule n1 A n2 B) (sorted_ids A B)),
         (omap (discrepancy_rule n2 B n1 A) (sorted_ids A B)).
  assert (Hm : Forall2 mirror
                 (omap (discrepancy_rule n1 A n2 B) (sorted_ids A B))
                 (omap (discrepancy_rule n2 B n1 A) (sorted_ids A B)))
    by apply Forall2_omap_pointwise, discrepancy_rule_mirror.
  split; [apply compare_crcs_rule|].
  split; [rewrite (sorted_ids_comm A B); apply compare_crcs_rule|].
  split; [by apply Forall2_mirror_msg_id|].
  split; [done|].
  assert (Hin : ∀ i, is_Some (A !! i) ∨ is_Some (B !! i) → i ∈ sorted_ids A B).
  { intros i Hi. apply sorted_ids_elem_of. rewrite !elem_of_dom. done. }
  split; [|split]; intros i; intros; split;
    apply list_elem_of_omap; exists i;
    (split; [apply Hin; eauto|]); unfold discrepancy_rule;
    repeat match goal with H : _ !! i = _ |- _ => rewrite H end;
    try done; by rewrite decide_False by congruence.
Qed.

Lemma compare_crcs_symmetric_witness :
  ∃ e12 e21,
    compare_crcs "pymavlink" (Some table_a) "router" (Some table_b)
    = Ok (e12, []) ∧
    compare_crcs "router" (Some table_b) "pymavlink" (Some table_a)
    = Ok (e21, []) ∧
    msg_id <$> e12 = msg_id <$> e21 ∧
    (Error 25003 "CHECK_OUT" (Missing_in "router") ∈ e12 ∧
     Error 25003 "CHECK_OUT" (Missing_in "router") ∈ e21) ∧
    (Error 25004 "SWARM_HEARTBEAT" (Missing_in "pymavlink") ∈ e12 ∧
     Error 25004 "SWARM_HEARTBEAT" (Missing_in "pymavlink") ∈ e21) ∧
    (Error 25002 "CHECK_IN" (CRC_mismatch "pymavlink" 100 "router" 101) ∈ e12 ∧
     Error 25002 "CHECK_IN" (CRC_mismatch "router" 101 "pymavlink" 100) ∈ e21).
Proof.
  destruct (compare_crcs_symmetric "pymavlink" table_a "router" table_b)
    as (e12 & e21 & H12 & H21 & Hids & _ & HA & HB & HAB).
  exists e12, e21. split; [exact H12|]. split; [exact H21|].
  split; [exact Hids|]. split; [|split].
  - apply (HA 25003 (Descriptor "CHECK_OUT" 7 34)); by vm_compute.
  - apply (HB 25004 (Descriptor "SWARM_HEARTBEAT" 9 21)); by vm_compute.
  - apply (HAB 25002 (Descriptor "CHECK_IN" 100 20)
             (Descriptor "CHECK_IN" 101 20)); by vm_compute.
Defined.

(** ** The text extractor *)

Lemma span_digits_forall s : string_forall is_digit (span_digits s).1 = true.
Proof.
  induction s as [|c s IH]; [done|]. simpl.
  destruct (is_digit c) eqn:Hc; [|done].
  destruct (span_digits s) as [d r]. simpl in *. by rewrite Hc.
Qed.

Lemma digits1_Some s d r :
  digits1 s = Some (d, r) → d ≠ EmptyString ∧ string_forall is_digit d = true.
Proof.
  unfold digits1. pose proof (span_digits_forall s) as Hd.
  destruct (span_digits s) as [[|c d'] r']; [done|].
  intros [= <- <-]. done.
Qed.

Lemma comma_field_Some s d r :
  comma_field s = Some (d, r) → d ≠ EmptyString ∧ string_forall is_digit d = true.
Proof.
  unfold comma_field. destruct (expect "," s) as [s'|]; [|done]. simpl.
  apply digits1_Some.
Qed.

Lemma match_entry_digit_groups s e r :
  match_entry s = Some (e, r) → digit_groups e.
Proof.
  unfold match_entry. intros H.
  repeat match type of H with
  | (?m ≫= _) = Some _ =>
      let E := fresh "E" in
      destruct m as [[]|] eqn:E; simpl in H; [|discriminate H]
  | (?m ≫= _) = Some _ =>
      let E := fresh "E" in
      destruct m eqn:E; simpl in H; [|discriminate H]
  end.
  injection H as <- <-. unfold digit_groups.
  repeat constructor;
    eauto using digits1_Some, comma_field_Some;
    try (eapply digits1_Some; eassumption);
    try (eapply comma_field_Some; eassumption).
Qed.

Lemma findall_from_digit_groups k s : Forall digit_groups (findall_from k s).
Proof.
  revert k. induction s as [|c s IH]; intros k; simpl; [constructor|].
  destruct k; [|apply IH].
  destruct (match_entry (String c s)) as [[e r]|] eqn:E; [|apply IH].
  constructor; [by eapply match_entry_digit_groups|apply IH].
Qed.

Lemma in_catalog_name id :
  in_catalog id = true →
  ∃ nm, head (filter (λ kv : string * Z, kv.2 = id) NAVLINK_MESSAGES)
        = Some (nm, id) ∧ catalog_name id = Ok nm.
Proof.
  unfold in_catalog. intros Hin%bool_decide_eq_true.
  unfold catalog_name. simpl in Hin.
  repeat (apply elem_of_cons in Hin as [->|Hin]; [eexists; split; reflexivity|]).
  by apply elem_of_nil in Hin.
Qed.

Lemma filter_none {X} (P : X → Prop) `{∀ x, Decision (P x)} (l : list X) :
  (∀ x, x ∈ l → ¬ P x) → filter P l = [].
Proof.
  induction l as [|x l IH]; intros Hl; [done|].
  rewrite filter_cons_False by (apply Hl; left).
  apply IH. intros y Hy. apply Hl. by right.
Qed.

Lemma not_in_catalog id :
  in_catalog id = false →
  filter (λ kv : string * Z, kv.2 = id) NAVLINK_MESSAGES = [].
Proof.
  unfold in_catalog. intros Hin%bool_decide_eq_false.
  apply filter_none. intros [nm v] Hkv Hv. simpl in Hv.
  subst v. apply Hin. apply list_elem_of_fmap. by exists (nm, id).
Qed.

Lemma table_entry_other (t : Z * Z * Z * Z) id :
  t.1.1.1 ≠ id → table_entry [t] id = None.
Proof.
  intros Hne. unfold table_entry.
  rewrite filter_cons_False, filter_nil by done. simpl.
  by destruct (head (filter _ NAVLINK_MESSAGES)) as [[]|].
Qed.

Lemma table_entry_outside tuples id :
  in_catalog id = false → table_entry tuples id = None.
Proof. intros Hcat. unfold table_entry. by rewrite (not_in_catalog _ Hcat). Qed.

Lemma table_entry_cons t tuples id :
  table_entry (t :: tuples) id
  = match table_entry tuples id with
    | Some d => Some d
    | None => table_entry [t] id
    end.
Proof.
  unfold table_entry.
  destruct (head (filter _ NAVLINK_MESSAGES)) as [[nm ?]|]; [simpl|done].
  destruct (decide (t.1.1.1 = id)) as [Ht|Ht].
  - rewrite !filter_cons_True, filter_nil by done.
    destruct (filter _ tuples) as [|t' l] eqn:E; [done|].
    change (last (t :: t' :: l)) with (last (t' :: l)).
    destruct (last_is_Some (t' :: l)) as [_ [t'' ->]]; [done|].
    simpl. by destruct t'' as [[[? ?] ?] ?].
  - rewrite !filter_cons_False, filter_nil by done. simpl.
    by destruct (last _) as [[[[? ?] ?] ?]|].
Qed.

(** One turn of the loop over the matches never raises. *)
Lemma entry_body_values crcs e :
  digit_groups e →
  ∃ crcs',
    entry_body crcs e = Ok crcs' ∧
    ∀ id, crcs' !! id
          = match table_entry [entry_values e] id with
            | Some d => Some d
            | None => crcs !! id
            end.
Proof.
  destruct e as [[[g0 g1] g2] g3]. unfold digit_groups.
  rewrite !Forall_cons. intros ([? ?] & [? ?] & [? ?] & [? ?] & _).
  unfold entry_body.
  rewrite !BuiltinSpec.py_int_digits by done. simpl.
  destruct (in_catalog (digits_value g0)) eqn:Hcat.
  - destruct (in_catalog_name _ Hcat) as (nm & Hhd & ->). simpl.
    eexists. split; [done|]. intros id.
    destruct (decide (id = digits_value g0)) as [->|Hne].
    + rewrite lookup_insert_eq. unfold table_entry. rewrite Hhd. simpl.
      by rewrite filter_cons_True by done.
    + rewrite lookup_insert_ne by done.
      by rewrite table_entry_other by (simpl; congruence).
  - eexists. split; [done|]. intros id.
    destruct (decide (id = digits_value g0)) as [->|Hne].
    + by rewrite table_entry_outside.
    + by rewrite table_entry_other by (simpl; congruence).
Qed.

(** The loop over the matches never raises, and a later tuple overrides an
    earlier one with the same id. *)
Lemma entries_loop_values es crcs :
  Forall digit_groups es →
  ∃ crcs',
    for_loop es entry_body crcs = Ok crcs' ∧
    ∀ id, crcs' !! id
          = match table_entry (entry_values <$> es) id with
            | Some d => Some d
            | None => crcs !! id
            end.
Proof.
  intros Hes. revert crcs.
  induction Hes as [|e es He _ IH]; intros crcs.
  - exists crcs. split; [done|]. intros id. unfold table_entry. simpl.
    by destruct (head (filter _ NAVLINK_MESSAGES)) as [[]|].
  - cbn [for_loop].
    destruct (entry_body_values crcs e He) as (crcs1 & -> & H1).
    cbn [rbind].
    destruct (IH crcs1) as (crcs' & -> & H'). exists crcs'. split; [done|].
    intros id. rewrite H', H1, fmap_cons.
    rewrite (table_entry_cons (entry_values e) (entry_values <$> es)).
    by destruct (table_entry (entry_values <$> es) id).
Qed.

(** [parse_c_header_crcs] never raises. *)
Lemma parse_c_header_crcs_returns fs path :
  ∃ o, parse_c_header_crcs fs path = Ok o.
Proof.
  unfold parse_c_header_crcs. destruct (fs path) as [content|]; [|by eexists].
  destruct (search_define content); simpl; [|by eexists].
  destruct (entries_loop_values (findall_entries content) ∅) as (crcs & -> & _);
    [apply findall_from_digit_groups|].
  by eexists.
Qed.

(** *** The scan on a block of tuples *)

Lemma string_app_cons c s r : String c s +:+ r = String c (s +:+ r).
Proof. reflexivity. Qed.

Lemma string_app_assoc a b c : (a +:+ b) +:+ c = a +:+ (b +:+ c).
Proof.
  induction a as [|x a IH]; [done|]. by rewrite !string_app_cons, IH.
Qed.




















(** The example of the specification, step by step. *)
Lemma parse_example_header (fs : string → option string) path :
  fs path = Some example_header →
  parse_c_header_crcs fs path = Ok (Some example_table).
Proof.
  unfold parse_c_header_crcs. intros ->.
  replace (search_define example_header) with true by (by vm_compute).
  simpl negb. cbv iota.
  replace (findall_entries example_header)
    with [("25002", "100", "20", "20"); ("1", "50", "9", "9")]
    by (by vm_compute).
  cbn [for_loop rbind entry_body].
  rewrite !BuiltinSpec.py_int_digits by done.
  change (digits_value "25002") with 25002.
  change (digits_value "100") with 100.
  change (digits_value "20") with 20.
  change (digits_value "1") with 1.
  change (digits_value "50") with 50.
  change (digits_value "9") with 9.
  cbn [mbind result_bind rbind].
  replace (in_catalog 25002) with true by (by vm_compute).
  replace (in_catalog 1) with false by (by vm_compute).
  replace (catalog_name 25002) with (Ok (A:=string) "CHECK_IN")
    by (by vm_compute).
  unfold mbind, result_bind. cbn [rbind]. by rewrite insert_empty.
Qed.



(** ** The driver *)

Lemma compare_crcs_returns n1 (o1 : option (gmap Z descriptor)) n2
    (o2 : option (gmap Z descriptor)) :
  ∃ errors, compare_crcs n1 o1 n2 o2 = Ok (errors, []).
Proof.
  destruct o1 as [A|], o2 as [B|]; try by eexists.
  eexists. apply compare_crcs_rule.
Qed.

Lemma sources_make_lookup py ap rt :
  let sources := make_sources py ap rt in
  (sources_get sources "pymavlink" = py ∧
   sources_get sources "ardupilot" = ap ∧
   sources_get sources "router" = rt) ∧
  (sources_getitem sources "pymavlink" = Ok py ∧
   sources_getitem sources "ardupilot" = Ok ap ∧
   sources_getitem sources "router" = Ok rt).
Proof.
  unfold make_sources, sources_get, sources_getitem. cbv zeta.
  rewrite !lookup_insert_eq.
  rewrite !(lookup_insert_ne _ "router") by done.
  rewrite !lookup_insert_eq.
  rewrite !(lookup_insert_ne _ "ardupilot") by done.
  by rewrite !lookup_insert_eq.
Qed.

(** One turn of the loop over [pairs] adds what [compared] says. *)
Lemma pair_body_compared sources all_errors n1 n2 :
  sources_getitem sources n1 = Ok (sources_get sources n1) →
  sources_getitem sources n2 = Ok (sources_get sources n2) →
  pair_body sources all_errors (n1, n2)
  = Ok (all_errors
        ++ compared n1 (sources_get sources n1) n2 (sources_get sources n2)).
Proof.
  intros H1 H2. unfold pair_body, compared.
  destruct (truthy _ && truthy _); [|by rewrite app_nil_r].
  rewrite H1, H2. simpl.
  destruct (compare_crcs_returns n1 (sources_get sources n1)
              n2 (sources_get sources n2)) as [errors ->].
  simpl. destruct errors; [by rewrite app_nil_r|done].
Qed.

Lemma compare_all_pairs_make py ap rt :
  compare_all_pairs (make_sources py ap rt)
  = Ok (compared "pymavlink" py "ardupilot" ap
        ++ compared "pymavlink" py "router" rt
        ++ compared "ardupilot" ap "router" rt).
Proof.
  destruct (sources_make_lookup py ap rt)
    as [(Gp & Ga & Gr) (Ip & Ia & Ir)]. cbv zeta in *.
  unfold compare_all_pairs, pairs. cbn [for_loop].
  rewrite !pair_body_compared by (by rewrite ?Gp, ?Ga, ?Gr).
  cbn [rbind]. rewrite !pair_body_compared by (by rewrite ?Gp, ?Ga, ?Gr).
  cbn [rbind]. rewrite !pair_body_compared by (by rewrite ?Gp, ?Ga, ?Gr).
  cbn [rbind]. rewrite Gp, Ga, Gr. by rewrite app_nil_l, <- app_assoc.
Qed.

Lemma main_status (e : env) ap rt :
  parse_c_header_crcs (fs e) (ardupilot_header e) = Ok ap →
  parse_c_header_crcs (fs e) (router_header e) = Ok rt →
  main e
  = Ok (exit_status
          (compared "pymavlink" (pymavlink_crcs e) "ardupilot" ap
           ++ compared "pymavlink" (pymavlink_crcs e) "router" rt
           ++ compared "ardupilot" ap "router" rt)).
Proof.
  intros Hap Hrt. unfold main, read_sources. rewrite Hap, Hrt. simpl.
  by rewrite compare_all_pairs_make.
Qed.



Lemma compared_issue n1 (o1 : option (gmap Z descriptor)) n2
    (o2 : option (gmap Z descriptor)) e :
  e ∈ compared n1 o1 n2 o2 →
  issue e = Missing_in n1 ∨ issue e = Missing_in n2 ∨
  ∃ c1 c2, issue e = CRC_mismatch n1 c1 n2 c2.
Proof.
  unfold compared. destruct (_ && _); [|by intros ?%elem_of_nil].
  destruct o1 as [A|], o2 as [B|]; try by intros ?%elem_of_nil.
  rewrite compare_crcs_rule.
  intros (i & _ & Hi)%list_elem_of_omap. unfold discrepancy_rule in Hi.
  destruct (A !! i) as [a|], (B !! i) as [b|]; try case_decide;
    simplify_eq; simpl; eauto.
Qed.

Lemma compared_empty_l n1 n2 (o2 : option (gmap Z descriptor)) :
  compared n1 (Some ∅) n2 o2 = [].
Proof. done. Qed.

Lemma compared_None_l n1 n2 (o2 : option (gmap Z descriptor)) :
  compared n1 None n2 o2 = [].
Proof. done. Qed.

Lemma compared_empty_r n1 (o1 : option (gmap Z descriptor)) n2 :
  compared n1 o1 n2 (Some ∅) = [].
Proof.
  unfold compared.
  replace (truthy (Some (∅ : gmap Z descriptor))) with false by done.
  by rewrite andb_false_r.
Qed.

Lemma compared_None_r n1 (o1 : option (gmap Z descriptor)) n2 :
  compared n1 o1 n2 None = [].
Proof.
  unfold compared. replace (truthy None) with false by done.
  by rewrite andb_false_r.
Qed.

(** C10: a source whose table is empty is passed over in every pair, as a
    source that is [None] is: [all_errors] is then what the one pair of the
    two other sources gives, no error mentions the empty source, and [main]
    returns the verdict of that one pair.  (Called on such a pair,
    [compare_crcs] would report every entry of the other table as missing.) *)
Theorem empty_source_skipped_like_unavailable
    (py ap rt : option (gmap Z descriptor)) :
  (compare_all_pairs (make_sources (Some ∅) ap rt)
   = compare_all_pairs (make_sources None ap rt) ∧
   compare_all_pairs (make_sources (Some ∅) ap rt)
   = Ok (compared "ardupilot" ap "router" rt) ∧
   ∀ e, e ∈ compared "ardupilot" ap "router" rt →
        ¬ names_source (issue e) "pymavlink") ∧
  (compare_all_pairs (make_sources py (Some ∅) rt)
   = compare_all_pairs (make_sources py None rt) ∧
   compare_all_pairs (make_sources py (Some ∅) rt)
   = Ok (compared "pymavlink" py "router" rt) ∧
   ∀ e, e ∈ compared "pymavlink" py "router" rt →
        ¬ names_source (issue e) "ardupilot") ∧
  (compare_all_pairs (make_sources py ap (Some ∅))
   = compare_all_pairs (make_sources py ap None) ∧
   compare_all_pairs (make_sources py ap (Some ∅))
   = Ok (compared "pymavlink" py "ardupilot" ap) ∧
   ∀ e, e ∈ compared "pymavlink" py "ardupilot" ap →
        ¬ names_source (issue e) "router") ∧
  (∀ (e : env) ap' rt',
     parse_c_header_crcs (fs e) (ardupilot_header e) = Ok ap' →
     parse_c_header_crcs (fs e) (router_header e) = Ok rt' →
     (pymavlink_crcs e = Some ∅ →
      main e = Ok (exit_status (compared "ardupilot" ap' "router" rt'))) ∧
     (ap' = Some ∅ →
      main e
      = Ok (exit_status (compared "pymavlink" (pymavlink_crcs e) "router" rt'))) ∧
     (rt' = Some ∅ →
      main e
      = Ok (exit_status
              (compared "pymavlink" (pymavlink_crcs e) "ardupilot" ap')))) ∧
  (∀ n1 n2 (A : gmap Z descriptor) i a,
     A !! i = Some a →
     ∃ errors,
       compare_crcs n1 (Some A) n2 (Some ∅) = Ok (errors, []) ∧
       Error i (name a) (Missing_in n2) ∈ errors).
Proof.
  assert (Hno : ∀ n1 o1 n2 o2 s e,
            s ≠ n1 → s ≠ n2 →
            e ∈ compared n1 o1 n2 o2 → ¬ names_source (issue e) s).
  { intros n1 o1 n2 o2 s e H1 H2 He Hs.
    destruct (compared_issue _ _ _ _ _ He) as [Hi|[Hi|(c1 & c2 & Hi)]];
      rewrite Hi in Hs; simpl in Hs; intuition congruence. }
  assert (Hmk : ∀ py ap rt,
            compare_all_pairs (make_sources py ap rt)
            = Ok (compared "pymavlink" py "ardupilot" ap
                  ++ compared "pymavlink" py "router" rt
                  ++ compared "ardupilot" ap "router" rt))
    by apply compare_all_pairs_make.
  repeat split;
    try (intros e; by apply Hno);
    try (rewrite !Hmk,
           ?compared_empty_l, ?compared_None_l,
           ?compared_empty_r, ?compared_None_r,
           ?app_nil_l, ?app_nil_r; done);
    try (intros Hempty; try subst ap'; try subst rt';
         erewrite main_status by eassumption; rewrite ?Hempty;
         rewrite ?compared_empty_l, ?compared_empty_r, ?app_nil_l, ?app_nil_r;
         done).
  - eexists. split; [apply compare_crcs_rule|].
    apply list_elem_of_omap. exists i. split.
    + apply sorted_ids_elem_of. left. apply elem_of_dom. eauto.
    + unfold discrepancy_rule. by rewrite H, lookup_empty.
Qed.

Lemma empty_source_skipped_like_unavailable_witness :
  parse_c_header_crcs foreign_fs
    (ardupilot_header (Env (Some example_table) foreign_fs "/a" "/r"))
  = Ok (Some ∅) ∧
  main (Env (Some example_table) foreign_fs "/a" "/r") = Ok 0 ∧
  ∃ errors,
    compare_crcs "pymavlink" (Some example_table) "ardupilot" (Some ∅)
    = Ok (errors, []) ∧
    Error 25002 "CHECK_IN" (Missing_in "ardupilot") ∈ errors.
Proof.
  assert (Hap : parse_c_header_crcs foreign_fs
                  (ardupilot_header (Env (Some example_table) foreign_fs "/a" "/r"))
                = Ok (Some ∅)) by (by vm_compute).
  assert (Hrt : parse_c_header_crcs foreign_fs
                  (router_header (Env (Some example_table) foreign_fs "/a" "/r"))
                = Ok None) by (by vm_compute).
  pose proof (empty_source_skipped_like_unavailable
                (Some example_table) (Some ∅) None)
    as (_ & _ & _ & Hmain & Hcmp).
  split; [exact Hap|]. split.
  - destruct (Hmain (Env (Some example_table) foreign_fs "/a" "/r")
                (Some ∅) None Hap Hrt) as (_ & Hempty & _).
    rewrite (Hempty eq_refl). reflexivity.
  - apply (Hcmp "pymavlink" "ardupilot" example_table 25002
             (Descriptor "CHECK_IN" 100 20)).
    apply lookup_singleton_eq.
Defined.

End CheckerSpec.

(** ** The harness *)
Module HarnessSpec.
Import Harness.

(** *** [parse_params] *)

Lemma py_float_raises value e :
  py_float value = Raise e → is_ValueError e = true.
Proof.
  unfold py_float. destruct (opt_sign (strip value)) as [neg r].
  repeat case_match; intros; by simplify_eq.
Qed.

Lemma py_int_raises value e :
  py_int value = Raise e → is_ValueError e = true.
Proof.
  unfold py_int. destruct (opt_sign (strip value)) as [neg r].
  repeat case_match; intros; by simplify_eq.
Qed.

(** [convert] case by case. *)
Lemma convert_cases value :
  convert value
  = Ok (if contains "." value then
          match py_float value with
          | Ok f => VFloat f
          | Raise _ => VStr value
          end
        else if isdigit value || (startswith_minus value && isdigit (tail value))
        then
          match py_int value with
          | Ok n => VInt n
          | Raise _ => VStr value
          end
        else if bool_decide (lower value ∈ ["true"; "false"]) then
          VBool (String.eqb (lower value) "true")
        else VStr value).
Proof.
  unfold convert. destruct (contains "." value).
  - destruct (py_float value) as [f|e] eqn:E; [done|]. simpl.
    by rewrite (py_float_raises _ _ E).
  - destruct (isdigit value || _).
    + destruct (py_int value) as [n|e] eqn:E; [done|]. simpl.
      by rewrite (py_int_raises _ _ E).
    + by destruct (bool_decide _).
Qed.


Lemma split_eq_join key value :
  contains "=" key = false →
  split_eq (key +:+ "=" +:+ value) = Some (key, value).
Proof.
  induction key as [|c key IH]; [done|]. intros H.
  cbn [contains] in H. apply orb_false_iff in H as [Hc Hk].
  change (String c key +:+ "=" +:+ value)
    with (String c (key +:+ "=" +:+ value)).
  cbn [split_eq]. rewrite Ascii.eqb_sym, Hc, (IH Hk). done.
Qed.




(** *** The receive loop *)

Section SessionSpec.

Context {callback U : Type}.
Context (run : callback → message → session callback U
               → result unit * session callback U).

(** The loop over the callbacks calls every one of them, in order, whatever
    each of them does, and does not raise. *)
Lemma for_each_calls_all (cbs : list callback) m (s : session callback U) :
  ∃ s',
    for_each cbs
      (λ cb, try_except_Exception (call run cb m)
               (λ e, print ("Callback error: " +:+ exn_str e))) s
    = (Ok tt, s', (λ cb, (cb, m)) <$> cbs).
Proof.
  revert s. induction cbs as [|cb cbs IH]; intros s; [by eexists|].
  cbn [for_each]. unfold bind at 1. unfold try_except_Exception at 1.
  unfold call at 1. destruct (run cb m s) as [[[]|e] s1].
  - destruct (IH s1) as [s' ->]. by eexists.
  - unfold print at 1. cbn iota beta.
    match goal with
    | |- context [for_each cbs ?f ?s2] => destruct (IH s2) as [s' ->]
    end.
    by eexists.
Qed.

Lemma bind_ret {A B} (a : A) (k : A → M callback U B) s :
  bind (ret a) k s = k a s.
Proof. unfold bind, ret. by destruct (k a s) as [[? ?] ?]. Qed.

Lemma bind_callbacks_get {B} key (k : list callback → M callback U B) s :
  bind (callbacks_get key) k s = k (default [] (callbacks s !! key)) s.
Proof. unfold bind, callbacks_get. by destruct (k _ s) as [[? ?] ?]. Qed.

Lemma try_except_Ok {A} (body : M callback U A) handler s a s1 t1 :
  body s = (Ok a, s1, t1) →
  try_except_Exception body handler s = (Ok a, s1, t1).
Proof. unfold try_except_Exception. by intros ->. Qed.

Lemma reader_iteration_scheduled ev stop_set (s : session callback U) :
  ∃ s', reader_iteration run ev stop_set s = (Ok tt, s', scheduled ev s).
Proof.
  unfold reader_iteration. destruct ev as [|m|e]; cbn [recv_match scheduled].
  - exists s. apply try_except_Ok. by rewrite bind_ret.
  - destruct (for_each_calls_all
                (default [] (callbacks s !! m_type m)
                 ++ default [] (callbacks s !! "*")) m s) as [s' Hs'].
    exists s'. apply try_except_Ok.
    by rewrite bind_ret, !bind_callbacks_get.
  - unfold try_except_Exception, bind.
    destruct stop_set; by eexists.
Qed.

Lemma reader_loop_scheduled turns (s : session callback U) :
  ∃ s', reader_loop run turns s = (Ok tt, s', scheduled_run run turns s).
Proof.
  revert s. induction turns as [|[ev stop_set] turns IH]; intros s;
    [by eexists|].
  cbn [reader_loop scheduled_run]. unfold bind.
  destruct (reader_iteration_scheduled ev stop_set s) as [s1 ->].
  cbn [fst snd]. destruct (IH s1) as [s' ->]. by eexists.
Qed.

Lemma on_message_appends k cb (s : session callback U) :
  callbacks (on_message k cb s) !! k
  = Some (default [] (callbacks s !! k) ++ [cb]) ∧
  ∀ k', k' ≠ k → callbacks (on_message k cb s) !! k' = callbacks s !! k'.
Proof.
  unfold on_message. simpl. split.
  - rewrite lookup_alter_eq. case_bool_decide as Hk.
    + rewrite lookup_insert_eq. apply not_elem_of_dom in Hk. by rewrite Hk.
    + apply elem_of_dom in Hk as [l ->]. done.
  - intros k' Hne. rewrite lookup_alter_ne by done.
    case_bool_decide; [by rewrite lookup_insert_ne|done].
Qed.

(** C7: on a message, one turn of the receive loop calls the callbacks
    registered for the message's type name and then those registered for
    ["*"], each group in the order of registration, whatever any of them
    does: a callback that raises is reported and the next one is called.
    The turn itself never raises, so the loop goes on to its next turn.
    [on_message] registers at the end of the list of its key. *)
Theorem reader_loop_dispatch :
  (∀ m stop_set (s : session callback U),
     ∃ s',
       reader_iteration run (Received m) stop_set s
       = (Ok tt, s',
          ((λ cb, (cb, m)) <$> default [] (callbacks s !! m_type m))
          ++ ((λ cb, (cb, m)) <$> default [] (callbacks s !! "*")))) ∧
  (∀ turns (s : session callback U),
     ∃ s', reader_loop run turns s = (Ok tt, s', scheduled_run run turns s)) ∧
  (∀ k cb (s : session callback U),
     callbacks (on_message k cb s) !! k
     = Some (default [] (callbacks s !! k) ++ [cb]) ∧
     ∀ k', k' ≠ k → callbacks (on_message k cb s) !! k' = callbacks s !! k').
Proof.
  split; [|split].
  - intros m stop_set s.
    destruct (reader_iteration_scheduled (Received m) stop_set s) as [s' ->].
    exists s'. unfold scheduled. by rewrite fmap_app.
  - apply reader_loop_scheduled.
  - apply on_message_appends.
Qed.

End SessionSpec.

Lemma reader_loop_dispatch_witness :
  ∃ s',
    reader_iteration trial_run (Received trial_message) false trial_session
    = (Ok tt, s',
       [(0%nat, trial_message); (1%nat, trial_message); (2%nat, trial_message)]) ∧
    stdout s' = ["Callback error: boom"] ∧ shared s' = 2%nat.
Proof.
  destruct (proj1 (reader_loop_dispatch trial_run)
              trial_message false trial_session) as [s' Hs'].
  exists s'. split; [exact Hs'|].
  assert (Hst : (reader_iteration trial_run (Received trial_message) false
                   trial_session).1.2 = s') by (by rewrite Hs').
  rewrite <- Hst. by vm_compute.
Defined.

(** *** The cross-heartbeat step *)

Local Open Scope Z_scope.

Lemma sum_elapsed_nonneg (l : list poll) :
  Forall (λ p, 0 ≤ elapsed p) l → 0 ≤ foldr Z.add 0 (elapsed <$> l).
Proof. induction 1; simpl; unfold fmap in *; lia. Qed.

(** The loop returns [True] exactly when a call that starts before the
    deadline hands over a heartbeat from the target. *)
Lemma wait_loop_observed self target deadline polls w :
  Forall (λ p, 0 ≤ elapsed p) polls →
  (wait_loop self target deadline polls w).1 = true ↔
  ∃ k p msg,
    polls !! k = Some p ∧ got p = Some msg ∧ m_src msg = target ∧
    clock w + foldr Z.add 0 (elapsed <$> take k polls) < deadline.
Proof.
  intros Hpos. revert w.
  induction Hpos as [|p polls Hp Hpos IH]; intros w.
  - simpl. split; [done|]. by intros (k & p & msg & Hk & _).
  - cbn [wait_loop]. destruct (clock w <? deadline) eqn:Hlt.
    + apply Z.ltb_lt in Hlt.
      assert (Hrec :
        (wait_loop self target deadline polls (advance (elapsed p) w)).1 = true ↔
        ∃ k p' msg,
          (p :: polls) !! S k = Some p' ∧ got p' = Some msg ∧
          m_src msg = target ∧
          clock w + foldr Z.add 0 (elapsed <$> take (S k) (p :: polls))
          < deadline).
      { rewrite IH.
        split; intros (k & p' & msg & H1 & H2 & H3 & H4);
          exists k, p', msg; (split; [exact H1|]);
          (split; [exact H2|]); (split; [exact H3|]);
          revert H4; simpl; unfold fmap; lia. }
      destruct (got p) as [msg|] eqn:Hgot.
      * destruct (m_src msg =? target) eqn:Hsrc.
        -- apply Z.eqb_eq in Hsrc. simpl. split; [intros _|done].
           exists 0%nat, p, msg. simpl. repeat split; try done. lia.
        -- apply Z.eqb_neq in Hsrc. rewrite Hrec. split.
           ++ intros (k & p' & msg' & H); exists (S k), p', msg'; done.
           ++ intros ([|k] & p' & msg' & H1 & H2 & H3 & H4).
              ** simpl in H1. simplify_eq.
              ** exists k, p', msg'. done.
      * rewrite Hrec. split.
        -- intros (k & p' & msg' & H); exists (S k), p', msg'; done.
        -- intros ([|k] & p' & msg' & H1 & H2 & H3 & H4).
           ++ simpl in H1. simplify_eq.
           ++ exists k, p', msg'. done.
    + apply Z.ltb_ge in Hlt. simpl. split; [done|].
      intros (k & p' & msg & _ & _ & _ & H4).
      assert (0 ≤ foldr Z.add 0 (elapsed <$> take k (p :: polls))); [|lia].
      apply sum_elapsed_nonneg, Forall_take. by constructor.
Qed.

(** What the loop prints: one line when it returns [True], nothing when it
    returns [False]. *)
Lemma wait_loop_log self target deadline polls w :
  log (wait_loop self target deadline polls w).2
  = if (wait_loop self target deadline polls w).1
    then log w ++ [Print (sys_tag self +:+ " Heartbeat from system "
                          +:+ str_of_int target)]
    else log w.
Proof.
  revert w. induction polls as [|p polls IH]; intros w.
  - simpl. unfold idle_until. by destruct (clock w <? deadline).
  - cbn [wait_loop]. destruct (clock w <? deadline); [|done].
    destruct (got p) as [msg|]; [|by rewrite IH].
    destruct (m_src msg =? target); [done|by rewrite IH].
Qed.

Lemma printed_same w w' : log w' = log w → printed w w' = [].
Proof. unfold printed. intros ->. by rewrite drop_all. Qed.

Lemma wait_heartbeat_from_spec self target timeout polls w :
  Forall (λ p, 0 ≤ elapsed p) polls →
  ((wait_heartbeat_from self target timeout polls w).1 = true ↔
   observed target timeout polls w) ∧
  ((wait_heartbeat_from self target timeout polls w).1 = false →
   printed w (wait_heartbeat_from self target timeout polls w).2 = []).
Proof.
  intros Hpos. unfold wait_heartbeat_from, observed, start_of. split.
  - by apply wait_loop_observed.
  - intros Hf. apply printed_same. by rewrite wait_loop_log, Hf.
Qed.

Lemma exchange_log e a name msg w :
  ∃ code verdict,
    exchange e a name msg w
    = (code,
       World (clock (cross_waits e a w).2 + 1000 * a_timeout a)
         (log (cross_waits e a w).2
          ++ [Print "----------------------------------------";
              Print ("Sending " +:+ name +:+ " from Vehicle 2...");
              Print "----------------------------------------";
              Send 252 msg;
              Sleep (a_timeout a);
              Print verdict])).
Proof.
  unfold exchange. destruct (cross_waits e a w) as [rs w1].
  destruct (received e); do 2 eexists; unfold emit, send_message, advance;
    simpl; rewrite <- !app_assoc; reflexivity.
Qed.

(** With both sessions connected, [main] goes through the whole exchange
    and then closes both sessions. *)
Lemma connected_run_log e a name msg w t1 t2 :
  first_heartbeat e 251 = Some t1 → first_heartbeat e 252 = Some t2 →
  ∃ code verdict wc,
    connected_run e a name msg w
    = (code,
       World (clock (cross_waits e a wc).2 + 1000 * a_timeout a)
         ((log (cross_waits e a wc).2
           ++ [Print "----------------------------------------";
               Print ("Sending " +:+ name +:+ " from Vehicle 2...");
               Print "----------------------------------------";
               Send 252 msg;
               Sleep (a_timeout a);
               Print verdict])
          ++ [Close 251; Print (sys_tag (vehicle1 a) +:+ " Closed");
              Close 252; Print (sys_tag (vehicle2 a) +:+ " Closed")])).
Proof.
  intros Ht1 Ht2. unfold connected_run. rewrite Ht1, Ht2.
  unfold connect. cbn [negb]. cbv iota. cbv zeta.
  match goal with
  | |- context [exchange e a name msg ?w0] =>
      destruct (exchange_log e a name msg w0) as (code & verdict & ->);
      exists code, verdict, w0
  end.
  unfold close, emit. cbn [log clock source_system vehicle1 vehicle2].
  by rewrite <- !app_assoc.
Qed.

(** Each call of [recv_match] returns within its second: the loop is left
    less than a second after the deadline. *)
Lemma wait_loop_clock self target deadline polls w :
  Forall (λ p, 0 ≤ elapsed p ≤ 1000) polls →
  clock w ≤ clock (wait_loop self target deadline polls w).2
  < Z.max (clock w + 1) (deadline + 1000).
Proof.
  intros Hpolls. revert w.
  induction Hpolls as [|p polls Hp _ IH]; intros w.
  - simpl. unfold idle_until. destruct (clock w <? deadline) eqn:Hlt;
      [apply Z.ltb_lt in Hlt|lia].
    simpl. pose proof (Z.mul_div_le (deadline - clock w + 999) 1000).
    assert (0 ≤ (deadline - clock w + 999) / 1000)
      by (apply Z.div_pos; lia).
    lia.
  - cbn [wait_loop]. destruct (clock w <? deadline) eqn:Hlt;
      [apply Z.ltb_lt in Hlt|simpl; lia].
    specialize (IH (advance (elapsed p) w)). simpl in IH.
    destruct (got p) as [msg|]; [destruct (m_src msg =? target)|];
      simpl; lia.
Qed.

(** C8, amended: once both sessions are connected, session 2 waits for a
    heartbeat from system 1 and then session 1 for one from system 2 (the
    vehicles' system ids, not the sessions' own 251 and 252), each up to ten
    seconds from its own start; a wait that times out prints nothing and its
    result is dropped; in every case the message is then sent from session 2,
    and the two sessions are closed. *)
Theorem cross_waits_then_send e a name msg w :
  Forall (λ p, 0 ≤ elapsed p) (polls_of e 252) →
  Forall (λ p, 0 ≤ elapsed p) (polls_of e 251) →
  ∃ r2 w2 r1 w1,
    first_wait e a w = (r2, w2) ∧
    second_wait e a w2 = (r1, w1) ∧
    cross_waits e a w = ((r2, r1), w1) ∧
    (r2 = true ↔ observed 1 10000 (polls_of e 252) w) ∧
    (r1 = true ↔ observed 2 10000 (polls_of e 251) w2) ∧
    (r2 = false → printed w w2 = []) ∧
    (r1 = false → printed w2 w1 = []) ∧
    (Forall (λ p, elapsed p ≤ 1000) (polls_of e 252) →
     clock w ≤ clock w2 < clock w + 11000) ∧
    (Forall (λ p, elapsed p ≤ 1000) (polls_of e 251) →
     clock w2 ≤ clock w1 < clock w2 + 11000) ∧
    (∃ code verdict,
       exchange e a name msg w
       = (code,
          World (clock w1 + 1000 * a_timeout a)
            (log w1
             ++ [Print "----------------------------------------";
                 Print ("Sending " +:+ name +:+ " from Vehicle 2...");
                 Print "----------------------------------------";
                 Send 252 msg;
                 Sleep (a_timeout a);
                 Print verdict]))) ∧
    (∀ t1 t2,
       first_heartbeat e 251 = Some t1 → first_heartbeat e 252 = Some t2 →
       ∃ code after before rest,
         connected_run e a name msg w = (code, after) ∧
         log after = before ++ Send 252 msg :: rest ∧
         Close 251 ∈ rest ∧ Close 252 ∈ rest).
Proof.
  intros H252 H251.
  destruct (first_wait e a w) as [r2 w2] eqn:E2.
  destruct (second_wait e a w2) as [r1 w1] eqn:E1.
  exists r2, w2, r1, w1.
  assert (Hcw : cross_waits e a w = (r2, r1, w1))
    by (unfold cross_waits; by rewrite E2, E1).
  pose proof (wait_heartbeat_from_spec (vehicle2 a) 1 10000 _ w H252) as [S2 P2].
  pose proof (wait_heartbeat_from_spec (vehicle1 a) 2 10000 _ w2 H251) as [S1 P1].
  unfold first_wait in E2. unfold second_wait in E1.
  rewrite E2 in S2, P2. rewrite E1 in S1, P1. simpl in S2, P2, S1, P1.
  do 7 (split; [done|]).
  split; [|split; [|split]].
  - intros Hle.
    assert (Hb : Forall (λ p, 0 ≤ elapsed p ≤ 1000) (polls_of e 252)).
    { apply Forall_forall. intros p Hp. rewrite Forall_forall in H252, Hle.
      split; auto. }
    pose proof (wait_loop_clock (vehicle2 a) 1 (clock w + 10000) _ w Hb) as Hc.
    unfold wait_heartbeat_from in E2. rewrite E2 in Hc. simpl in Hc. lia.
  - intros Hle.
    assert (Hb : Forall (λ p, 0 ≤ elapsed p ≤ 1000) (polls_of e 251)).
    { apply Forall_forall. intros p Hp. rewrite Forall_forall in H251, Hle.
      split; auto. }
    pose proof (wait_loop_clock (vehicle1 a) 2 (clock w2 + 10000) _ w2 Hb) as Hc.
    unfold wait_heartbeat_from in E1. rewrite E1 in Hc. simpl in Hc. lia.
  - destruct (exchange_log e a name msg w) as (code & verdict & Hex).
    rewrite Hcw in Hex. by exists code, verdict.
  - intros t1 t2 Ht1 Ht2.
    destruct (connected_run_log e a name msg w t1 t2 Ht1 Ht2)
      as (code & verdict & wc & ->).
    eexists code, _,
      (log (cross_waits e a wc).2
       ++ [Print "----------------------------------------";
           Print ("Sending " +:+ name +:+ " from Vehicle 2...");
           Print "----------------------------------------"]),
      [Sleep (a_timeout a); Print verdict;
       Close 251; Print (sys_tag (vehicle1 a) +:+ " Closed");
       Close 252; Print (sys_tag (vehicle2 a) +:+ " Closed")].
    split; [reflexivity|]. cbn [log].
    split; [by rewrite <- !app_assoc|].
    split; rewrite !elem_of_cons; auto 10.
Qed.

Lemma cross_waits_then_send_witness :
  Forall (λ p, 0 ≤ elapsed p) (polls_of identity_heartbeats 252) ∧
  Forall (λ p, 0 ≤ elapsed p) (polls_of identity_heartbeats 251) ∧
  ∃ r2 r1 w1 code after before rest,
    cross_waits identity_heartbeats default_args (World 0 []) = ((r2, r1), w1) ∧
    connected_run identity_heartbeats default_args "CHECK_IN" trial_message
      (World 0 [])
    = (code, after) ∧
    log after = before ++ Send 252 trial_message :: rest.
Proof.
  assert (H252 : Forall (λ p, 0 ≤ elapsed p) (polls_of identity_heartbeats 252))
    by (repeat constructor; simpl; lia).
  assert (H251 : Forall (λ p, 0 ≤ elapsed p) (polls_of identity_heartbeats 251))
    by (repeat constructor; simpl; lia).
  split; [exact H252|]. split; [exact H251|].
  destruct (cross_waits_then_send identity_heartbeats default_args "CHECK_IN"
              trial_message (World 0 []) H252 H251)
    as (r2 & w2 & r1 & w1 & _ & _ & Hcw & _ & _ & _ & _ & _ & _ & _ & Hrun).
  destruct (Hrun 1 1) as (code & after & before & rest & Hc & Hl & _);
    [reflexivity|reflexivity|].
  exists r2, r1, w1, code, after, before, rest. split; [exact Hcw|].
  split; [exact Hc|exact Hl].
Defined.

(** C8, as worded, fails: session 2 is handed a heartbeat that carries
    session 1's identity a tenth of a second into its wait, yet its wait
    runs to the deadline, returns [False], and prints nothing. *)
Lemma cross_wait_not_for_session_identity :
  let w := World 0 [] in
  observed (source_system (vehicle1 default_args)) 10000
    (polls_of identity_heartbeats 252) w ∧
  (first_wait identity_heartbeats default_args w).1 = false ∧
  clock (first_wait identity_heartbeats default_args w).2 = 10100 ∧
  printed w (first_wait identity_heartbeats default_args w).2 = [] ∧
  ¬ waits_for_session_identities.
Proof.
  cbv zeta.
  assert (Hobs : observed (source_system (vehicle1 default_args)) 10000
                   (polls_of identity_heartbeats 252) (World 0 [])).
  { exists 0%nat, (Poll 100 (Some (heartbeat 251))), (heartbeat 251).
    repeat split; by vm_compute. }
  repeat split; try done.
  intros H.
  specialize (H identity_heartbeats default_args (World 0 [])).
  destruct (first_wait identity_heartbeats default_args (World 0 []))
    as [r2 w2] eqn:E2.
  destruct (second_wait identity_heartbeats default_args w2) as [r1 w1].
  destruct H as [Hr2 _].
  - repeat constructor; simpl; lia.
  - repeat constructor; simpl; lia.
  - apply Hr2 in Hobs. subst r2. by vm_compute in E2.
Qed.

End HarnessSpec.

(** * Further properties *)

(** ** The comparator and the driver of the checker *)
Module CheckerMore.
Import Checker CheckerNotions CheckerSpec.

Lemma omap_nil_iff {X Y} (f : X → option Y) (l : list X) :
  omap f l = [] ↔ ∀ x, x ∈ l → f x = None.
Proof.
  split; [|apply omap_all_None].
  induction l as [|x l IH]; intros H y Hy; [by apply elem_of_nil in Hy|].
  simpl in H. destruct (f x) eqn:E; [done|].
  apply elem_of_cons in Hy as [->|Hy]; [done|by apply IH].
Qed.

Lemma discrepancy_rule_None n1 (A : gmap Z descriptor) n2
    (B : gmap Z descriptor) i :
  discrepancy_rule n1 A n2 B i = None ↔
  (A !! i = None ∧ B !! i = None) ∨
  (∃ a b, A !! i = Some a ∧ B !! i = Some b ∧ crc a = crc b).
Proof.
  unfold discrepancy_rule.
  destruct (A !! i) as [a|], (B !! i) as [b|]; try case_decide.
  - split; [intros _; right; eauto|done].
  - split; [done|]. intros [[? ?]|(a' & b' & [= <-] & [= <-] & ?)]; done.
  - split; [done|]. intros [[? ?]|(a' & b' & ? & ? & ?)]; done.
  - split; [done|]. intros [[? ?]|(a' & b' & ? & ? & ?)]; done.
  - split; [by left|done].
Qed.

(** No error, whatever the sources are called, exactly when the tables
    agree. *)
Lemma compare_crcs_agree n1 (A : gmap Z descriptor) n2 (B : gmap Z descriptor) :
  compare_crcs n1 (Some A) n2 (Some B) = Ok ([], []) ↔ agree A B.
Proof.
  rewrite compare_crcs_rule. unfold agree. split.
  - intros [= H]. rewrite omap_nil_iff in H. split.
    + apply set_eq. intros i. rewrite !elem_of_dom. split; intros [d Hd].
      * destruct (proj1 (discrepancy_rule_None n1 A n2 B i)) as [[? ?]|(a & b & ? & ? & ?)];
          [apply H, sorted_ids_elem_of; left; apply elem_of_dom; eauto
          |congruence|eauto].
      * destruct (proj1 (discrepancy_rule_None n1 A n2 B i)) as [[? ?]|(a & b & ? & ? & ?)];
          [apply H, sorted_ids_elem_of; right; apply elem_of_dom; eauto
          |congruence|eauto].
    + intros i a b Ha Hb.
      destruct (proj1 (discrepancy_rule_None n1 A n2 B i)) as [[? ?]|(a' & b' & ? & ? & ?)];
        [apply H, sorted_ids_elem_of; left; apply elem_of_dom; eauto
        |congruence|congruence].
  - intros [Hdom Hcrc].
    rewrite (proj2 (omap_nil_iff _ _)); [done|]. intros i _.
    apply discrepancy_rule_None.
    destruct (A !! i) as [a|] eqn:Ha, (B !! i) as [b|] eqn:Hb.
    + right. exists a, b. eauto.
    + exfalso. assert (i ∈ dom B) as [? ?]%elem_of_dom
        by (rewrite <- Hdom; apply elem_of_dom; eauto). congruence.
    + exfalso. assert (i ∈ dom A) as [? ?]%elem_of_dom
        by (rewrite Hdom; apply elem_of_dom; eauto). congruence.
    + by left.
Qed.

(** X1: called on two tables, [compare_crcs] returns no error exactly when
    the tables have the same ids and, id by id, the same ['crc']; the names
    of the sources, the ['name'] and the ['len'] of the entries play no
    part. *)
Theorem compare_crcs_empty_iff_agree
    n1 (A : gmap Z descriptor) n2 (B : gmap Z descriptor) :
  compare_crcs n1 (Some A) n2 (Some B) = Ok ([], []) ↔
  dom A = dom B ∧ ∀ i a b, A !! i = Some a → B !! i = Some b → crc a = crc b.
Proof. apply compare_crcs_agree. Qed.




Lemma compared_None n1 (o1 : option (gmap Z descriptor)) n2
    (o2 : option (gmap Z descriptor)) :
  o1 = None ∨ o2 = None → compared n1 o1 n2 o2 = [].
Proof. intros [-> | ->]; [done|apply compared_None_r]. Qed.

Lemma compared_sublist n1 (o1 o1' : option (gmap Z descriptor)) n2
    (o2 o2' : option (gmap Z descriptor)) :
  o1' = o1 ∨ o1' = None → o2' = o2 ∨ o2' = None →
  compared n1 o1' n2 o2' `sublist_of` compared n1 o1 n2 o2.
Proof.
  intros [-> | ->] [-> | ->]; try done;
    rewrite compared_None by auto; apply sublist_nil_l.
Qed.

(** X3: taking sources away never adds an error: when any of the three
    sources is replaced by [None], [all_errors] becomes a sublist of what it
    was, so a run that passed still passes. *)
Theorem dropping_sources_only_removes_errors
    (py ap rt py' ap' rt' : option (gmap Z descriptor)) :
  py' = py ∨ py' = None → ap' = ap ∨ ap' = None → rt' = rt ∨ rt' = None →
  ∃ all_errors all_errors',
    compare_all_pairs (make_sources py ap rt) = Ok all_errors ∧
    compare_all_pairs (make_sources py' ap' rt') = Ok all_errors' ∧
    all_errors' `sublist_of` all_errors ∧
    (exit_status all_errors = 0 → exit_status all_errors' = 0).
Proof.
  intros Hpy Hap Hrt. do 2 eexists.
  split; [apply compare_all_pairs_make|].
  split; [apply compare_all_pairs_make|].
  assert (Hsub : (compared "pymavlink" py' "ardupilot" ap'
                  ++ compared "pymavlink" py' "router" rt'
                  ++ compared "ardupilot" ap' "router" rt')
                 `sublist_of`
                 (compared "pymavlink" py "ardupilot" ap
                  ++ compared "pymavlink" py "router" rt
                  ++ compared "ardupilot" ap "router" rt))
    by (repeat apply sublist_app; by apply compared_sublist).
  split; [exact Hsub|].
  destruct (_ ++ _ ++ compared "ardupilot" ap "router" rt) as [|e l]; [|done].
  intros _. apply sublist_nil_r in Hsub. by rewrite Hsub.
Qed.

Lemma dropping_sources_only_removes_errors_witness :
  ∃ all_errors all_errors',
    compare_all_pairs (make_sources (Some table_a) (Some table_b) None)
    = Ok all_errors ∧
    compare_all_pairs (make_sources (Some table_a) None None)
    = Ok all_errors' ∧
    all_errors' `sublist_of` all_errors.
Proof.
  destruct (dropping_sources_only_removes_errors
              (Some table_a) (Some table_b) None (Some table_a) None None)
    as (l & l' & H1 & H2 & Hs & _); [by left|by right|by left|].
  by exists l, l'.
Defined.

Lemma readable_le_1 (py ap rt : option (gmap Z descriptor)) :
  (readable_count py ap rt ≤ 1)%nat →
  truthy py && truthy ap = false ∧ truthy py && truthy rt = false ∧
  truthy ap && truthy rt = false.
Proof.
  unfold readable_count. rewrite !filter_cons, filter_nil.
  destruct (truthy py), (truthy ap), (truthy rt);
    repeat case_decide; simpl; try done; lia.
Qed.

(** X4: with at most one readable source (a table that is neither [None]
    nor empty) no pair is compared and [main] returns 0: also when nothing
    at all could be read, the verdict is a pass. *)
Theorem lone_source_passes :
  (∀ py ap rt,
     (readable_count py ap rt ≤ 1)%nat →
     compare_all_pairs (make_sources py ap rt) = Ok []) ∧
  (∀ (e : env) ap rt,
     parse_c_header_crcs (fs e) (ardupilot_header e) = Ok ap →
     parse_c_header_crcs (fs e) (router_header e) = Ok rt →
     (readable_count (pymavlink_crcs e) ap rt ≤ 1)%nat →
     main e = Ok 0).
Proof.
  assert (H : ∀ py ap rt,
            (readable_count py ap rt ≤ 1)%nat →
            compared "pymavlink" py "ardupilot" ap
            ++ compared "pymavlink" py "router" rt
            ++ compared "ardupilot" ap "router" rt = []).
  { intros py ap rt (H1 & H2 & H3)%readable_le_1. unfold compared.
    by rewrite H1, H2, H3. }
  split.
  - intros py ap rt Hc. by rewrite compare_all_pairs_make, H.
  - intros e ap rt Hap Hrt Hc. by rewrite (main_status e ap rt), H.
Qed.

Lemma lone_source_passes_witness :
  (readable_count None None None ≤ 1)%nat ∧ main nothing_readable = Ok 0.
Proof.
  split; [vm_compute; lia|].
  apply (proj2 lone_source_passes nothing_readable None None);
    [reflexivity|reflexivity|vm_compute; lia].
Defined.

(** *** The extractor on any file *)







(** What the function returns for a file that holds the pattern. *)
Lemma parse_scan (fs : string → option string) path content :
  fs path = Some content → search_define content = true →
  ∃ crcs,
    parse_c_header_crcs fs path = Ok (Some crcs) ∧
    ∀ id, crcs !! id
          = table_entry (entry_values <$> findall_entries content) id.
Proof.
  unfold parse_c_header_crcs. intros -> ->. simpl.
  destruct (entries_loop_values (findall_entries content) ∅) as (crcs & -> & H);
    [apply findall_from_digit_groups|].
  exists crcs. split; [done|]. intros id. rewrite H, lookup_empty.
  by destruct (table_entry _ id).
Qed.


Local Open Scope Z_scope.

Lemma digits_value_from_nonneg acc d :
  0 ≤ acc → string_forall is_digit d = true → 0 ≤ digits_value_from acc d.
Proof.
  revert acc. induction d as [|c d IH]; intros acc Hacc; [done|].
  simpl. intros [Hc Hd]%andb_true_iff. apply IH; [|done].
  unfold is_digit, py_isdecimal in Hc. unfold digit_value.
  apply andb_true_iff in Hc as [Hc%N.leb_le _]. lia.
Qed.

Lemma table_entry_Some tuples id d :
  table_entry tuples id = Some d →
  (name d, id) ∈ NAVLINK_MESSAGES ∧
  ∃ t, t ∈ tuples ∧ crc d = t.1.1.2 ∧ len d = t.2.
Proof.
  unfold table_entry.
  destruct (head (filter _ NAVLINK_MESSAGES)) as [[nm v]|] eqn:Hh; [|done].
  simpl. destruct (last (filter _ tuples)) as [[[[i c] mn] mx]|] eqn:Hl;
    [|done].
  simpl. intros [= <-]. simpl. split.
  - apply head_Some_elem_of in Hh. apply list_elem_of_filter in Hh as [Hv ?].
    simpl in Hv. by subst v.
  - exists (i, c, mn, mx). split; [|done].
    apply last_Some_elem_of in Hl. by apply list_elem_of_filter in Hl as [_ ?].
Qed.

(** X6: whatever the file holds, the table [parse_c_header_crcs] returns
    has only catalog ids as keys, each under its catalog name, with a crc
    and a length that are not negative; so it never has more entries than
    the catalog. *)
Theorem parse_c_header_crcs_within_catalog
    (fs : string → option string) path crcs :
  parse_c_header_crcs fs path = Ok (Some crcs) →
  (∀ id d, crcs !! id = Some d →
     (name d, id) ∈ NAVLINK_MESSAGES ∧ 0 ≤ crc d ∧ 0 ≤ len d) ∧
  (size crcs ≤ length NAVLINK_MESSAGES)%nat.
Proof.
  intros Hp.
  assert (Hall : ∀ id d, crcs !! id = Some d →
            (name d, id) ∈ NAVLINK_MESSAGES ∧ 0 ≤ crc d ∧ 0 ≤ len d).
  { destruct (fs path) as [content|] eqn:Hfs;
      [|by unfold parse_c_header_crcs in Hp; rewrite Hfs in Hp].
    destruct (search_define content) eqn:Hs;
      [|by unfold parse_c_header_crcs in Hp; rewrite Hfs, Hs in Hp].
    destruct (parse_scan fs path content Hfs Hs) as (crcs' & Hp' & Hl).
    rewrite Hp in Hp'. injection Hp' as <-.
    intros id d. rewrite Hl.
    intros (Hcat & t & Ht & -> & ->)%table_entry_Some. split; [done|].
    apply list_elem_of_fmap in Ht as ([[[g0 g1] g2] g3] & -> & He).
    pose proof (findall_from_digit_groups 0 content) as Hg.
    rewrite Forall_forall in Hg. apply Hg in He. unfold digit_groups in He.
    rewrite !Forall_cons in He. destruct He as (_ & [_ ?] & _ & [_ ?] & _).
    simpl. split; by apply digits_value_from_nonneg. }
  split; [done|].
  rewrite <- size_dom.
  transitivity (size (list_to_set (C := gset Z) NAVLINK_MESSAGES.*2)).
  - apply subseteq_size. intros id [d Hd]%elem_of_dom.
    apply elem_of_list_to_set, list_elem_of_fmap.
    exists (name d, id). split; [done|]. by apply Hall.
  - by vm_compute.
Qed.

Lemma parse_c_header_crcs_within_catalog_witness :
  parse_c_header_crcs example_fs
    "/r/modules/mavlink_c_library_v2/ardupilotmega/ardupilotmega.h"
  = Ok (Some example_table) ∧
  (size example_table ≤ length NAVLINK_MESSAGES)%nat.
Proof.
  assert (H : parse_c_header_crcs example_fs
                "/r/modules/mavlink_c_library_v2/ardupilotmega/ardupilotmega.h"
              = Ok (Some example_table))
    by (by apply parse_example_header).
  split; [exact H|].
  exact (proj2 (parse_c_header_crcs_within_catalog _ _ _ H)).
Defined.

End CheckerMore.

Module HarnessMore.
Import Harness HarnessNotions HarnessSpec.

Lemma split_eq_Some p k v :
  split_eq p = Some (k, v) ↔ p = k +:+ "=" +:+ v ∧ contains "=" k = false.
Proof.
  split.
  - revert k. induction p as [|c p IH]; intros k; [done|]. simpl.
    destruct (Ascii.eqb_spec c "=") as [->|Hc].
    + by intros [= <- <-].
    + destruct (split_eq p) as [[k' v']|]; [|done]. simpl.
      intros [= <- <-]. destruct (IH k' eq_refl) as [-> Hk]. split; [done|].
      cbn [contains]. rewrite Hk, orb_false_r. apply Ascii.eqb_neq. congruence.
  - intros [-> Hk]. by apply split_eq_join.
Qed.

Lemma split_eq_None p : split_eq p = None ↔ contains "=" p = false.
Proof.
  induction p as [|c p IH]; [done|]. cbn [split_eq contains].
  rewrite (Ascii.eqb_sym "=" c).
  destruct (Ascii.eqb c "="); [done|]. simpl. rewrite <- IH.
  by destruct (split_eq p) as [[??]|].
Qed.

(** X7: [parse_params] cuts a parameter at its first ['='] and nowhere
    else: the key holds no ['='], the value is all of the rest (it may hold
    further ['='] signs), and key, ['='] and value put together give the
    parameter back; a parameter is left out exactly when it holds no
    ['=']. *)
Theorem split_eq_first_equals :
  (∀ p k v,
     split_eq p = Some (k, v) ↔ p = k +:+ "=" +:+ v ∧ contains "=" k = false) ∧
  (∀ p, split_eq p = None ↔ contains "=" p = false) ∧
  (∀ p acc, contains "=" p = false → parse_params_body acc p = Ok acc).
Proof.
  split; [apply split_eq_Some|]. split; [apply split_eq_None|].
  intros p acc Hp%split_eq_None. unfold parse_params_body. by rewrite Hp.
Qed.

Lemma split_eq_first_equals_witness :
  split_eq "url=udp://h?a=b" = Some ("url", "udp://h?a=b") ∧
  contains "=" "junk" = false ∧
  parse_params_body ∅ "junk" = Ok ∅.
Proof.
  split; [|split; [reflexivity|]].
  - apply (proj1 split_eq_first_equals). split; reflexivity.
  - apply (proj2 (proj2 split_eq_first_equals)). reflexivity.
Defined.

Lemma last_value_cons key p params :
  last_value key (p :: params)
  = match last_value key params with
    | Some value => Some value
    | None => '(k, v) ← split_eq p; if decide (k = key) then Some v else None
    end.
Proof.
  unfold last_value. cbn [omap list_omap].
  destruct (_ ← split_eq p; _) as [x|]; [|by destruct (last _)].
  change (omap ?f params) with (omap f params).
  destruct (omap _ params) as [|y l] eqn:E; [done|].
  change (last (x :: y :: l)) with (last (y :: l)).
  by destruct (last_is_Some (y :: l)) as [_ [z ->]].
Qed.

Lemma last_value_app key l1 l2 :
  last_value key (l1 ++ l2)
  = match last_value key l2 with
    | Some value => Some value
    | None => last_value key l1
    end.
Proof.
  induction l1 as [|p l1 IH]; simpl.
  - by destruct (last_value key l2).
  - rewrite !last_value_cons, IH. by destruct (last_value key l2).
Qed.

Lemma stored_Some value : ∃ v, convert value = Ok v ∧ stored value = Some v.
Proof. unfold stored. rewrite convert_cases. eauto. Qed.

Lemma parse_params_loop params acc :
  ∃ result',
    for_loop params parse_params_body acc = Ok result' ∧
    ∀ key, result' !! key
           = match last_value key params with
             | Some value => stored value
             | None => acc !! key
             end.
Proof.
  revert acc. induction params as [|p params IH]; intros acc.
  - by exists acc.
  - cbn [for_loop]. unfold parse_params_body at 1.
    destruct (split_eq p) as [[k value]|] eqn:Hp.
    + destruct (stored_Some value) as (v & Hv & Hs). rewrite Hv. simpl.
      destruct (IH (<[k := v]> acc)) as (m & -> & Hm). exists m.
      split; [done|]. intros key. rewrite Hm, last_value_cons, Hp. simpl.
      destruct (last_value key params); [done|].
      destruct (decide (k = key)) as [->|Hk].
      * by rewrite lookup_insert_eq.
      * by rewrite lookup_insert_ne.
    + simpl. destruct (IH acc) as (m & -> & Hm). exists m.
      split; [done|]. intros key. rewrite Hm, last_value_cons, Hp. simpl.
      by destruct (last_value key params).
Qed.

Lemma last_value_is_Some key params :
  is_Some (last_value key params) ↔
  ∃ p value, p ∈ params ∧ split_eq p = Some (key, value).
Proof.
  unfold last_value. rewrite last_is_Some. split.
  - destruct (omap _ params) as [|value l] eqn:E; [done|]. intros _.
    assert (Hx : value ∈ value :: l) by left. rewrite <- E in Hx.
    apply list_elem_of_omap in Hx as (p & Hp & Hv). exists p, value.
    split; [done|]. destruct (split_eq p) as [[k v]|]; [|done]. simpl in Hv.
    destruct (decide (k = key)) as [->|]; [|done]. by injection Hv as ->.
  - intros (p & value & Hp & Hs) E.
    assert (Hx : value ∈ omap (λ p, '(k, v) ← split_eq p;
                   if decide (k = key) then Some v else None) params).
    { apply list_elem_of_omap. exists p. split; [done|]. rewrite Hs. simpl.
      by rewrite decide_True. }
    rewrite E in Hx. by apply elem_of_nil in Hx.
Qed.

(** X8: [parse_params] never raises, whatever the parameters; the result
    has a key exactly for the texts that stand before the first ['='] of
    some parameter, and when a key is given several times, the value of the
    last parameter with that key is the one stored. *)
Theorem parse_params_last_wins params :
  ∃ result',
    parse_params params = Ok result' ∧
    (∀ key,
       is_Some (result' !! key) ↔
       ∃ p value, p ∈ params ∧ split_eq p = Some (key, value)) ∧
    (∀ key value,
       last_value key params = Some value →
       ∃ v, convert value = Ok v ∧ result' !! key = Some v).
Proof.
  destruct (parse_params_loop params ∅) as (m & Hm & Hl).
  exists m. split; [done|]. split.
  - intros key. rewrite <- last_value_is_Some, Hl.
    destruct (last_value key params) as [value|]; [|by rewrite lookup_empty].
    destruct (stored_Some value) as (v & _ & ->). done.
  - intros key value E. destruct (stored_Some value) as (v & Hv & Hs).
    exists v. by rewrite Hl, E.
Qed.

Lemma parse_params_last_wins_witness :
  last_value "n" ["n=1"; "junk"; "n=2"] = Some "2" ∧
  ∃ result' v,
    parse_params ["n=1"; "junk"; "n=2"] = Ok result' ∧
    convert "2" = Ok v ∧ result' !! "n" = Some v.
Proof.
  split; [reflexivity|].
  destruct (parse_params_last_wins ["n=1"; "junk"; "n=2"])
    as (m & Hm & _ & Hl).
  destruct (Hl "n" "2") as (v & Hv & Hk); [reflexivity|].
  by exists m, v.
Defined.

(** X9: parsing a list of parameters in two parts and overlaying the
    second result on the first gives the result for the whole list. *)
Theorem parse_params_app l1 l2 :
  ∃ r1 r2,
    parse_params l1 = Ok r1 ∧ parse_params l2 = Ok r2 ∧
    parse_params (l1 ++ l2) = Ok (r2 ∪ r1).
Proof.
  destruct (parse_params_loop l1 ∅) as (r1 & H1 & L1).
  destruct (parse_params_loop l2 ∅) as (r2 & H2 & L2).
  destruct (parse_params_loop (l1 ++ l2) ∅) as (r & H & L).
  exists r1, r2. split; [done|]. split; [done|].
  unfold parse_params. rewrite H. f_equal. apply map_eq. intros key.
  rewrite L, last_value_app, lookup_union, L1, L2.
  destruct (last_value key l2) as [value|].
  - destruct (stored_Some value) as (v & _ & ->).
    by destruct (match last_value key l1 with Some _ => _ | None => _ end).
  - rewrite lookup_empty.
    by destruct (match last_value key l1 with Some _ => _ | None => _ end).
Qed.

End HarnessMore.

Module DialectMore.
Import Checker CheckerNotions CheckerSpec CheckerMore Dialect.
Local Open Scope Z_scope.

(** *** The string operations of the fallback *)

Lemma contains_app c a b : contains c (a +:+ b) = contains c a || contains c b.
Proof.
  induction a as [|x a IH]; [done|].
  rewrite string_app_cons. cbn [contains]. by rewrite IH, orb_assoc.
Qed.

Lemma contains_occurrences c s :
  contains c s = true ↔ (0 < occurrences c s)%nat.
Proof.
  induction s as [|x s IH]; cbn [contains occurrences]; [split; [done|lia]|].
  rewrite (Ascii.eqb_sym c x), orb_true_iff, IH.
  destruct (Ascii.eqb x c); [split; [lia|by left]|].
  split; [intros [?|?]; [done|lia]|right; lia].
Qed.

Lemma rstrip_char_keeps c s :
  string_forall (λ x, negb (Ascii.eqb x c)) s = true → rstrip_char c s = s.
Proof.
  induction s as [|x s IH]; [done|]. cbn [string_forall rstrip_char].
  intros [Hx Hs]%andb_true_iff. rewrite (IH Hs).
  destruct s; [|done]. by destruct (Ascii.eqb x c).
Qed.

Lemma rstrip_char_snoc c s :
  rstrip_char c (s +:+ String c EmptyString) = rstrip_char c s.
Proof.
  induction s as [|x s IH].
  - simpl. by rewrite Ascii.eqb_refl.
  - rewrite string_app_cons. cbn [rstrip_char]. by rewrite IH.
Qed.

Lemma rstrip_char_app c a r :
  rstrip_char c r ≠ EmptyString →
  rstrip_char c (a +:+ r) = a +:+ rstrip_char c r.
Proof.
  intros Hr. induction a as [|x a IH]; [done|].
  rewrite !string_app_cons. cbn [rstrip_char]. rewrite IH.
  destruct (a +:+ rstrip_char c r) eqn:E; [|done].
  destruct a; [|done]. by destruct Hr.
Qed.

Lemma rstrip_char_occurrences c c' s :
  c ≠ c' → occurrences c' (rstrip_char c s) = occurrences c' s.
Proof.
  intros Hc. induction s as [|x s IH]; [done|]. cbn [rstrip_char occurrences].
  rewrite <- IH. destruct (rstrip_char c s) eqn:E; [|done].
  destruct (Ascii.eqb_spec x c) as [->|]; [|done]. simpl.
  by destruct (Ascii.eqb_spec c c').
Qed.

Lemma split_none sep s : contains sep s = false → split sep s = [s].
Proof.
  induction s as [|x s IH]; [done|]. cbn [contains split].
  rewrite (Ascii.eqb_sym sep x). intros [Hx Hs]%orb_false_iff.
  by rewrite Hx, (IH Hs).
Qed.

Lemma split_at sep a r :
  contains sep a = false →
  split sep (a +:+ String sep r) = a :: split sep r.
Proof.
  induction a as [|x a IH].
  - intros _. simpl. by rewrite Ascii.eqb_refl.
  - rewrite string_app_cons. cbn [contains split].
    rewrite (Ascii.eqb_sym sep x). intros [Hx Hs]%orb_false_iff.
    by rewrite Hx, (IH Hs).
Qed.

Lemma split_length sep s :
  length (split sep s) = S (occurrences sep s).
Proof.
  induction s as [|x s IH]; [done|]. cbn [split occurrences].
  destruct (Ascii.eqb x sep); simpl; [by rewrite IH|].
  destruct (split sep s); [done|]. simpl in *. lia.
Qed.

Lemma digits_no_bracket c d :
  py_isdecimal c = false →
  string_forall is_digit d = true →
  contains c d = false ∧ string_forall (λ x, negb (Ascii.eqb x c)) d = true.
Proof.
  intros Hc. induction d as [|x d IH]; [done|].
  cbn [string_forall contains]. intros [Hx Hd]%andb_true_iff.
  destruct (IH Hd) as [-> ->].
  destruct (Ascii.eqb_spec x c) as [->|Hne].
  - unfold is_digit in Hx. congruence.
  - rewrite (Ascii.eqb_sym c x). by destruct (Ascii.eqb_spec x c).
Qed.

(** One turn of the loop on a well-formed field type. *)
Lemma field_body_wf msg_len f :
  field_wf f → field_body msg_len (field_text f) = Ok (msg_len + field_len f).
Proof.
  destruct f as [base|base count]; simpl.
  - intros Hb. unfold field_body. by rewrite Hb.
  - intros [Hb [[Hne Hd] _]]. unfold field_body.
    rewrite contains_app, Hb. simpl.
    destruct (digits_no_bracket "[" count eq_refl Hd) as [Hc _].
    destruct (digits_no_bracket "]" count eq_refl Hd) as [_ Hk].
    rewrite <- !string_app_assoc, rstrip_char_snoc.
    rewrite rstrip_char_app; rewrite (rstrip_char_keeps _ _ Hk); [|done].
    rewrite string_app_assoc.
    change ("[" +:+ count) with (String "[" count).
    rewrite split_at, split_none by done.
    by rewrite BuiltinSpec.py_int_digits.
Qed.

Lemma fields_loop fields msg_len :
  Forall field_wf fields →
  for_loop (field_text <$> fields) field_body msg_len
  = Ok (msg_len + foldr Z.add 0 (field_len <$> fields)).
Proof.
  revert msg_len. induction fields as [|f fields IH]; intros n Hf.
  - cbn. f_equal. lia.
  - apply Forall_cons in Hf as [Hf Hfs]. rewrite !fmap_cons. cbn [for_loop].
    rewrite (field_body_wf _ _ Hf). cbn [rbind]. rewrite IH by done.
    f_equal. cbn [foldr]. lia.
Qed.

Lemma type_size_pos base : 0 < default 4 (type_sizes !! base).
Proof.
  destruct (type_sizes !! base) as [z|] eqn:E; [|done]. simpl.
  apply elem_of_list_to_map_2 in E.
  repeat (apply elem_of_cons in E as [[= -> ->]|E]; [done|]).
  by apply elem_of_nil in E.
Qed.

Lemma field_len_nonneg f : field_wf f → 0 ≤ field_len f.
Proof.
  pose proof type_size_pos as Hp.
  destruct f as [base|base count]; simpl.
  - intros _. specialize (Hp base). lia.
  - intros [_ [[_ Hd] _]]. specialize (Hp base).
    pose proof (digits_value_from_nonneg 0 count (Z.le_refl 0) Hd).
    unfold digits_value. nia.
Qed.

Lemma fields_len_nonneg fields :
  Forall field_wf fields → 0 ≤ foldr Z.add 0 (field_len <$> fields).
Proof.
  induction 1 as [|f fields Hf _ IH]; [done|]. rewrite fmap_cons. cbn [foldr].
  pose proof (field_len_nonneg f Hf). lia.
Qed.

Lemma code_size_pos c itemsize : code_size c = Some itemsize → 0 < itemsize.
Proof.
  unfold code_size. repeat case_match; intros [= <-]; done.
Qed.

Lemma calcsize_loop_nonneg fmt size num n :
  0 ≤ size → (∀ k, num = Some k → 0 ≤ k) →
  calcsize_loop size num fmt = Ok n → 0 ≤ n.
Proof.
  revert size num. induction fmt as [|c fmt IH]; intros size num Hs Hn.
  - simpl. destruct num; [done|]. by intros [= <-].
  - cbn [calcsize_loop].
    destruct (match num with Some _ => false | None => struct_isspace c end).
    { by apply IH. }
    destruct (py_isdecimal c) eqn:Hc.
    { destruct (_ <? _); [done|]. apply IH; [done|]. intros k [= <-].
      unfold py_isdecimal in Hc. apply andb_true_iff in Hc as [Hc%N.leb_le _].
      assert (0 ≤ default 0 num) by (destruct num; simpl; auto; lia).
      unfold digit_value. lia. }
    destruct (code_size c) as [itemsize|] eqn:Hi; [|done].
    apply code_size_pos in Hi.
    destruct (_ <? _); [done|]. apply IH; [|done].
    assert (0 ≤ default 1 num) by (destruct num; simpl; auto; lia). nia.
Qed.

Lemma format_len_nonneg cls : 0 ≤ format_len cls.
Proof.
  unfold format_len. destruct (native_format cls) as [[fmt|]|]; try done.
  unfold try_except_pass, calcsize_le.
  destruct (negb _); [done|]. destruct (contains _ _); [done|].
  destruct (calcsize_loop _ _ _) as [n|] eqn:E; [|done].
  by eapply calcsize_loop_nonneg in E.
Qed.

Lemma class_ok_len cls :
  class_ok cls → ∃ l c, class_len cls = Ok l ∧ crc_extra cls = Some c ∧ 0 ≤ l.
Proof.
  intros [[c Hc] Hl]. unfold class_len.
  pose proof (format_len_nonneg cls).
  destruct (Z.eqb_spec (format_len cls) 0) as [E|E].
  - destruct Hl as [?|(fields & -> & Hf)]; [done|]. rewrite E, fields_loop by done.
    eexists _, c. split; [done|]. split; [done|].
    pose proof (fields_len_nonneg _ Hf). lia.
  - by exists (format_len cls), c.
Qed.

(** X10: for a class whose format gives no length (it has no
    [native_format], or one that is not a [str], as the [bytearray] pymavlink
    generates, or one [struct] rejects or finds empty) and whose field types
    are scalars and arrays [base[count]], the length is the sum over the
    fields of the size of the base type, 4 for an unknown one, times the
    count; it is never negative. *)
Theorem class_len_from_fieldtypes cls fields :
  format_len cls = 0 →
  fieldtypes cls = Some (field_text <$> fields) →
  Forall field_wf fields →
  class_len cls = Ok (foldr Z.add 0 (field_len <$> fields)) ∧
  0 ≤ foldr Z.add 0 (field_len <$> fields).
Proof.
  intros E Hf Hwf. split; [|by apply fields_len_nonneg].
  unfold class_len. by rewrite E, Hf, fields_loop.
Qed.

Lemma class_len_from_fieldtypes_witness :
  format_len check_in_class = 0 ∧ class_len check_in_class = Ok 20.
Proof.
  split; [reflexivity|].
  apply (class_len_from_fieldtypes check_in_class
           [Scalar "uint32_t"; Array "uint8_t" "16"]); [reflexivity..|].
  repeat constructor; simpl; try done; lia.
Defined.

(** *** The loop over the catalog *)

Lemma message_loop_table mav cat acc out crcs out' :
  NoDup cat.*2 →
  for_loop cat (message_body mav) (acc, out) = Ok (crcs, out') →
  out' = out ++ (warning <$> filter (λ nm, mav (class_name nm) = None) cat.*1) ∧
  ∀ id d,
    crcs !! id = Some d ↔
    (∃ cls, (name d, id) ∈ cat ∧ mav (class_name (name d)) = Some cls ∧
            crc_extra cls = Some (crc d) ∧ class_len cls = Ok (len d)) ∨
    (acc !! id = Some d ∧ ∀ nm, (nm, id) ∈ cat → mav (class_name nm) = None).
Proof.
  revert acc out. induction cat as [|[nm i] cat IH]; intros acc out Hnd.
  - intros [= <- <-]. split; [by rewrite app_nil_r|]. intros id d. split.
    + intros Hd. right. split; [done|]. by intros ? ?%elem_of_nil.
    + intros [(? & ?%elem_of_nil & _)|[? _]]; done.
  - rewrite fmap_cons in Hnd. apply NoDup_cons in Hnd as [Hi Hnd].
    cbn [for_loop]. unfold message_body at 1.
    destruct (mav (class_name nm)) as [cls|] eqn:E.
    + destruct (class_len cls) as [l|] eqn:El; [|done]. cbn [mbind result_bind rbind].
      destruct (crc_extra cls) as [c|] eqn:Ec; [|done]. cbn [rbind].
      intros [-> Ht]%(IH _ _ Hnd). split.
      { rewrite fmap_cons, filter_cons_False; [done|]. simpl. by rewrite E. }
      intros id d. rewrite Ht. clear Ht IH. split.
      * intros [(cls' & Hin & ?)|[Hacc Hno]].
        { left. exists cls'. split; [by right|done]. }
        destruct (decide (id = i)) as [->|Hne].
        -- rewrite lookup_insert_eq in Hacc. injection Hacc as <-. left.
           exists cls. simpl. split; [by left|done].
        -- rewrite lookup_insert_ne in Hacc by done. right. split; [done|].
           intros nm' [[= -> ->]|Hin]%elem_of_cons; [done|by apply Hno].
      * intros [(cls' & [Hhd|Hin]%elem_of_cons & Hm & Hc & Hl)|[Hacc Hno]].
        -- injection Hhd as Hn ->. right. rewrite Hn, E in Hm.
           injection Hm as <-. rewrite lookup_insert_eq. split.
           { destruct d as [dn dc dl]. simpl in *. congruence. }
           intros nm' Hin. destruct Hi. apply list_elem_of_fmap.
           by exists (nm', i).
        -- left. by exists cls'.
        -- assert (id ≠ i) as Hne.
           { intros ->. specialize (Hno nm (list_elem_of_here _ _)). congruence. }
           right. rewrite lookup_insert_ne by done. split; [done|].
           intros nm' Hin. apply Hno. by right.
    + intros [-> Ht]%(IH _ _ Hnd). split.
      { rewrite fmap_cons, filter_cons_True by done.
        by rewrite fmap_cons, <- app_assoc. }
      intros id d. rewrite Ht. clear Ht IH. split.
      * intros [(cls' & Hin & ?)|[Hacc Hno]].
        { left. exists cls'. split; [by right|done]. }
        right. split; [done|].
        intros nm' [[= -> ->]|Hin]%elem_of_cons; [done|by apply Hno].
      * intros [(cls' & [Hhd|Hin]%elem_of_cons & Hm & Hc & Hl)|[Hacc Hno]].
        -- injection Hhd as Hn ->. rewrite Hn in Hm. congruence.
        -- left. by exists cls'.
        -- right. split; [done|]. intros nm' Hin. apply Hno. by right.
Qed.

Lemma catalog_ids_NoDup : NoDup NAVLINK_MESSAGES.*2.
Proof. apply (bool_decide_unpack _). by vm_compute. Qed.

(** X11: when [get_pymavlink_crcs] returns, it returns [None] exactly when
    the import failed; otherwise the table has an entry exactly for the
    catalog messages whose class the dialect holds, under the catalog's id,
    with the catalog's name, the class's [crc_extra] and its length, and a
    warning is printed for each of the other catalog messages, in the
    catalog's order. *)
Theorem get_pymavlink_crcs_table imp o out :
  get_pymavlink_crcs imp = Ok (o, out) →
  match imp with
  | ImportError => o = None
  | Imported mav =>
      ∃ crcs,
        o = Some crcs ∧
        (∀ id d,
           crcs !! id = Some d ↔
           ∃ cls, (name d, id) ∈ NAVLINK_MESSAGES ∧
                  mav (class_name (name d)) = Some cls ∧
                  crc_extra cls = Some (crc d) ∧
                  class_len cls = Ok (len d)) ∧
        out = warning <$> filter (λ nm, mav (class_name nm) = None)
                            NAVLINK_MESSAGES.*1
  end.
Proof.
  destruct imp as [mav|]; [|by intros [= <- _]]. unfold get_pymavlink_crcs.
  destruct (for_loop NAVLINK_MESSAGES (message_body mav) (∅, []))
    as [[crcs out']|] eqn:E; [|done]. cbn [mbind result_bind rbind].
  intros [= <- <-]. exists crcs. split; [done|].
  apply message_loop_table in E as [-> Ht]; [|apply catalog_ids_NoDup].
  split; [|done]. intros id d. rewrite Ht. split.
  - intros [?|[Hacc _]]; [done|]. by rewrite lookup_empty in Hacc.
  - intros ?. by left.
Qed.

Lemma get_pymavlink_crcs_table_witness :
  get_pymavlink_crcs (Imported check_in_only)
  = Ok (Some {[ 25002 := Descriptor "CHECK_IN" 100 20 ]},
        warning <$> ["CHECK_OUT"; "SWARM_HEARTBEAT"; "AVAILABLE_TASK_REQUEST";
                     "AVAILABLE_TASK_RESPONSE"; "TASK_ASSIGN_REQUEST";
                     "TASK_ASSIGN_RESPONSE"; "TASK_CONFIRM_REQUEST";
                     "TASK_CONFIRM_RESPONSE"; "SLOT_HEARTBEAT"; "SLOT_CLAIM";
                     "VOTE_PHASE"; "SEARCH_STATUS"]) ∧
  ∃ crcs : gmap Z descriptor,
    Some {[ 25002 := Descriptor "CHECK_IN" 100 20 ]} = Some crcs.
Proof.
  assert (H : get_pymavlink_crcs (Imported check_in_only)
              = Ok (Some {[ 25002 := Descriptor "CHECK_IN" 100 20 ]},
                    warning <$> ["CHECK_OUT"; "SWARM_HEARTBEAT";
                      "AVAILABLE_TASK_REQUEST"; "AVAILABLE_TASK_RESPONSE";
                      "TASK_ASSIGN_REQUEST"; "TASK_ASSIGN_RESPONSE";
                      "TASK_CONFIRM_REQUEST"; "TASK_CONFIRM_RESPONSE";
                      "SLOT_HEARTBEAT"; "SLOT_CLAIM"; "VOTE_PHASE";
                      "SEARCH_STATUS"])) by reflexivity.
  split; [exact H|].
  destruct (get_pymavlink_crcs_table _ _ _ H) as (crcs & Ho & _).
  by exists crcs.
Defined.

Lemma message_loop_returns mav cat st :
  (∀ nm id cls,
     (nm, id) ∈ cat → mav (class_name nm) = Some cls → class_ok cls) →
  ∃ st', for_loop cat (message_body mav) st = Ok st'.
Proof.
  revert st. induction cat as [|[nm i] cat IH]; intros [acc out] Hok.
  - by eexists.
  - cbn [for_loop]. unfold message_body at 1.
    destruct (mav (class_name nm)) as [cls|] eqn:E.
    + destruct (class_ok_len cls) as (l & c & -> & -> & _).
      { apply (Hok nm i); [by left|done]. }
      cbn [mbind result_bind rbind]. apply IH.
      intros nm' id' cls' Hin. apply (Hok nm' id'). by right.
    + cbn [rbind]. apply IH.
      intros nm' id' cls' Hin. apply (Hok nm' id'). by right.
Qed.

(** X12: if every class the dialect holds for a catalog message has a
    [crc_extra] and either a format that gives a length or field types that
    are scalars and arrays [base[count]], then [get_pymavlink_crcs] returns a
    table and no length in it is negative: whatever [native_format] is, it
    makes nothing raise. *)
Theorem get_pymavlink_crcs_returns mav :
  (∀ nm id cls,
     (nm, id) ∈ NAVLINK_MESSAGES → mav (class_name nm) = Some cls →
     class_ok cls) →
  ∃ crcs out,
    get_pymavlink_crcs (Imported mav) = Ok (Some crcs, out) ∧
    ∀ id d, crcs !! id = Some d → 0 ≤ len d.
Proof.
  intros Hok.
  destruct (message_loop_returns mav NAVLINK_MESSAGES (∅, []) Hok)
    as [[crcs out] E].
  assert (Hg : get_pymavlink_crcs (Imported mav) = Ok (Some crcs, out))
    by (unfold get_pymavlink_crcs; by rewrite E).
  exists crcs, out. split; [done|].
  apply message_loop_table in E as [_ Ht]; [|apply catalog_ids_NoDup].
  intros id d [(cls & Hin & Hm & _ & Hl)|[Hacc _]]%Ht;
    [|by rewrite lookup_empty in Hacc].
  destruct (class_ok_len cls) as (l & _ & Hl' & _ & ?);
    [by eapply Hok|]. congruence.
Qed.

Lemma get_pymavlink_crcs_returns_witness :
  ∃ crcs out,
    get_pymavlink_crcs (Imported check_in_only) = Ok (Some crcs, out) ∧
    ∀ id d, crcs !! id = Some d → 0 ≤ len d.
Proof.
  destruct (get_pymavlink_crcs_returns check_in_only)
    as (crcs & out & Hg & Hm).
  - intros nm id cls _. unfold check_in_only.
    destruct (String.eqb _ _); [|done]. intros [= <-].
    split; [by eexists|]. right.
    exists [Scalar "uint32_t"; Array "uint8_t" "16"].
    split; [reflexivity|]. repeat constructor; simpl; try done; lia.
  - by exists crcs, out.
Defined.

(** *** What is not caught *)

Lemma field_body_raises n ft e :
  field_body n ft = Raise e →
  is_ValueError e = true ∧ ∀ m, field_body m ft = Raise e.
Proof.
  unfold field_body. destruct (contains "[" ft); [|done].
  destruct (split _ _) as [|base [|count [|? ?]]]; try by intros [= <-].
  destruct (py_int count) as [k|e'] eqn:E; [done|]. simpl.
  intros [= <-]. split; [|done]. by eapply HarnessSpec.py_int_raises.
Qed.

Lemma field_body_many n ft :
  (2 ≤ occurrences "[" ft)%nat →
  field_body n ft = Raise (ValueError "too many values to unpack (expected 2)").
Proof.
  intros Hocc. unfold field_body.
  rewrite (proj2 (contains_occurrences "[" ft)) by lia.
  pose proof (split_length "[" (rstrip_char "]" ft)) as Hl.
  rewrite rstrip_char_occurrences in Hl by done.
  destruct (split _ _) as [|base [|count [|? ?]]]; try done.
  simpl in Hl. lia.
Qed.

Lemma fields_loop_raises fts ft n :
  ft ∈ fts → (∀ m, ∃ e, field_body m ft = Raise e) →
  ∃ e, for_loop fts field_body n = Raise e ∧ is_ValueError e = true.
Proof.
  intros Hin Hft. revert n. induction fts as [|x fts IH]; intros n.
  { by apply elem_of_nil in Hin. }
  cbn [for_loop]. destruct (field_body n x) as [n'|e] eqn:E.
  - cbn [rbind]. apply elem_of_cons in Hin as [->|Hin]; [|by apply IH].
    destruct (Hft n) as [e E']. congruence.
  - exists e. split; [done|]. by eapply field_body_raises.
Qed.

Lemma message_loop_raises mav cat st nm id cls e :
  (nm, id) ∈ cat → mav (class_name nm) = Some cls → class_len cls = Raise e →
  ∃ e', for_loop cat (message_body mav) st = Raise e'.
Proof.
  intros Hin Hm Hl. revert st.
  induction cat as [|[nm' i] cat IH]; intros [acc out].
  { by apply elem_of_nil in Hin. }
  cbn [for_loop].
  destruct (message_body mav (acc, out) (nm', i)) as [st'|e'] eqn:E;
    [|by eexists].
  cbn [rbind]. apply elem_of_cons in Hin as [[= <- <-]|Hin]; [|by apply IH].
  unfold message_body in E. by rewrite Hm, Hl in E.
Qed.

(** X13: a field type that holds more than one ['['], as a matrix
    [float[3][3]] does, in a class of a catalog message whose format gives
    no length, makes [get_pymavlink_crcs] raise; nothing in [main] catches
    it, so [main] raises too instead of returning a verdict.  In the class
    itself the exception is a [ValueError]. *)
Theorem matrix_field_type_raises mav nm id cls fts ft :
  (nm, id) ∈ NAVLINK_MESSAGES →
  mav (class_name nm) = Some cls →
  format_len cls = 0 →
  fieldtypes cls = Some fts →
  ft ∈ fts →
  (2 ≤ occurrences "[" ft)%nat →
  (∃ e, class_len cls = Raise e ∧ is_ValueError e = true) ∧
  ∃ e, get_pymavlink_crcs (Imported mav) = Raise e ∧
       ∀ fs a r, main (Imported mav) fs a r = Raise e.
Proof.
  intros Hin Hm Hf Hfts Hft Hocc.
  assert (Hc : ∃ e, class_len cls = Raise e ∧ is_ValueError e = true).
  { unfold class_len. rewrite Hf, Hfts. simpl.
    apply (fields_loop_raises fts ft); [done|].
    intros m. eexists. by apply field_body_many. }
  split; [done|]. destruct Hc as (e & Hc & _).
  destruct (message_loop_raises mav NAVLINK_MESSAGES (∅, []) nm id cls e)
    as [e' E]; [done..|].
  assert (Hg : get_pymavlink_crcs (Imported mav) = Raise e')
    by (unfold get_pymavlink_crcs; by rewrite E).
  exists e'. split; [done|]. intros fs a r. unfold main. by rewrite Hg.
Qed.

Lemma matrix_field_type_raises_witness :
  ∃ e, get_pymavlink_crcs (Imported matrix_dialect) = Raise e ∧
       main (Imported matrix_dialect) (λ _, None) "/a" "/r" = Raise e.
Proof.
  destruct (matrix_field_type_raises matrix_dialect "VOTE_PHASE" 25202
              matrix_class ["uint32_t"; "float[3][3]"] "float[3][3]")
    as (_ & e & Hg & Hm).
  - apply (bool_decide_unpack _). by vm_compute.
  - reflexivity.
  - reflexivity.
  - reflexivity.
  - apply (bool_decide_unpack _). by vm_compute.
  - vm_compute. lia.
  - exists e. split; [exact Hg|apply Hm].
Defined.

(** *** With the rest of [main] *)

Lemma truthy_Some (t : gmap Z descriptor) i d :
  t !! i = Some d → truthy (Some t) = true.
Proof.
  intros Hi. simpl. apply negb_true_iff, Nat.eqb_neq.
  intros Hs%map_size_empty_iff. by rewrite Hs, lookup_empty in Hi.
Qed.

Lemma compared_missing n1 (A : gmap Z descriptor) n2 (B : gmap Z descriptor) i d :
  truthy (Some A) = true → A !! i = None → B !! i = Some d →
  compared n1 (Some A) n2 (Some B) ≠ [].
Proof.
  intros HA Hi Hd. unfold compared.
  rewrite HA, (truthy_Some B i d Hd). cbn [andb].
  destruct (compare_crcs_returns n1 (Some A) n2 (Some B)) as [errors E].
  rewrite E. intros ->. apply compare_crcs_agree in E as [Hdom _].
  assert (i ∈ dom B) as Hin by (apply elem_of_dom; eauto).
  rewrite <- Hdom in Hin. apply elem_of_dom in Hin as [? ?]. congruence.
Qed.

Lemma exit_status_1 (l : list error) : l ≠ [] → exit_status l = 1.
Proof. by destruct l. Qed.

Lemma catalog_name_unique {X} (l : list (X * Z)) a b i :
  NoDup l.*2 → (a, i) ∈ l → (b, i) ∈ l → a = b.
Proof.
  induction l as [|[x j] l IH]; [by intros _ ?%elem_of_nil|].
  rewrite fmap_cons. intros [Hj Hnd]%NoDup_cons.
  assert (Hn : ∀ y, (y, j) ∈ l → False).
  { intros y Hy. apply Hj, list_elem_of_fmap. by exists (y, j). }
  intros [Ha|Ha]%elem_of_cons [Hb|Hb]%elem_of_cons.
  - congruence.
  - injection Ha as -> ->. exfalso. by eapply Hn.
  - injection Hb as -> ->. exfalso. by eapply Hn.
  - by apply IH.
Qed.

(** X14: a dialect that holds none of the navlink classes is passed over
    like a pymavlink that is not installed: [get_pymavlink_crcs] returns the
    empty table with a warning for each of the messages, and [main] returns
    what it returns when the import fails, the verdict on the two headers
    alone. *)
Theorem dialect_without_navlink_is_skipped mav :
  (∀ nm id, (nm, id) ∈ NAVLINK_MESSAGES → mav (class_name nm) = None) →
  get_pymavlink_crcs (Imported mav)
  = Ok (Some ∅, warning <$> NAVLINK_MESSAGES.*1) ∧
  ∀ fs a r, main (Imported mav) fs a r = main ImportError fs a r.
Proof.
  intros Hno.
  assert (Hg : get_pymavlink_crcs (Imported mav)
               = Ok (Some ∅, warning <$> NAVLINK_MESSAGES.*1)).
  { unfold get_pymavlink_crcs.
    assert (Hl : ∀ cat acc out,
              (∀ nm id, (nm, id) ∈ cat → mav (class_name nm) = None) →
              for_loop cat (message_body mav) (acc, out)
              = Ok (acc, out ++ (warning <$> cat.*1))).
    { induction cat as [|[nm i] cat IH]; intros acc out Hc.
      - cbn. by rewrite app_nil_r.
      - cbn [for_loop]. unfold message_body at 1.
        rewrite (Hc nm i) by left. cbn [rbind]. rewrite IH.
        + by rewrite !fmap_cons, <- app_assoc.
        + intros nm' id' Hin. apply (Hc nm' id'). by right. }
    by rewrite (Hl NAVLINK_MESSAGES ∅ [] Hno). }
  split; [done|]. intros fs a r. unfold main. rewrite Hg. simpl.
  set (e1 := Env (Some ∅) fs a r). set (e2 := Env None fs a r).
  destruct (parse_c_header_crcs_returns fs (ardupilot_header e1)) as [ap Hap].
  destruct (parse_c_header_crcs_returns fs (router_header e1)) as [rt Hrt].
  rewrite (main_status e1 ap rt Hap Hrt), (main_status e2 ap rt Hap Hrt).
  done.
Qed.

Lemma dialect_without_navlink_is_skipped_witness :
  main (Imported (λ _, None)) example_fs "/a" "/r"
  = main ImportError example_fs "/a" "/r".
Proof.
  apply (dialect_without_navlink_is_skipped (λ _, None)).
  reflexivity.
Defined.

(** X15: if the dialect holds the class of some catalog message but not
    that of another one which a header lists, the run fails: whenever
    [get_pymavlink_crcs] returns, [main] returns 1. *)
Theorem missing_class_fails mav fs a r py out ap rt nm id :
  get_pymavlink_crcs (Imported mav) = Ok (Some py, out) →
  parse_c_header_crcs fs (ardupilot_header (Env (Some py) fs a r)) = Ok ap →
  parse_c_header_crcs fs (router_header (Env (Some py) fs a r)) = Ok rt →
  py ≠ ∅ →
  (nm, id) ∈ NAVLINK_MESSAGES →
  mav (class_name nm) = None →
  (∃ t d, (ap = Some t ∨ rt = Some t) ∧ t !! id = Some d) →
  main (Imported mav) fs a r = Ok 1.
Proof.
  intros Hg Hap Hrt Hne Hin Hm (t & d & Ht & Hd).
  unfold main. rewrite Hg. cbn [mbind result_bind rbind].
  rewrite (main_status (Env (Some py) fs a r) ap rt Hap Hrt). f_equal.
  cbn [pymavlink_crcs].
  assert (Hpy : truthy (Some py) = true).
  { simpl. apply negb_true_iff, Nat.eqb_neq. by intros ?%map_size_empty_iff. }
  assert (Hi : py !! id = None).
  { destruct (py !! id) as [d'|] eqn:E; [|done].
    unfold get_pymavlink_crcs in Hg.
    destruct (for_loop NAVLINK_MESSAGES (message_body mav) (∅, []))
      as [[crcs out']|] eqn:El; [|done].
    injection Hg as -> ->.
    apply message_loop_table in El as [_ Ht']; [|apply catalog_ids_NoDup].
    apply Ht' in E as [(cls & Hin' & Hm' & _)|[Hacc _]];
      [|by rewrite lookup_empty in Hacc].
    rewrite (catalog_name_unique _ _ _ _ catalog_ids_NoDup Hin' Hin) in Hm'.
    congruence. }
  apply exit_status_1.
  destruct Ht as [-> | ->].
  - intros [Hc _]%app_eq_nil. by eapply compared_missing.
  - intros [_ [Hc _]%app_eq_nil]%app_eq_nil. by eapply compared_missing.
Qed.

Lemma missing_class_fails_witness :
  main (Imported (λ class, if String.eqb class "MAVLink_check_out_message"
                           then Some check_in_class else None))
    example_fs "/a" "/r"
  = Ok 1.
Proof.
  eapply (missing_class_fails _ example_fs "/a" "/r" _ _ None
            (Some example_table) "CHECK_IN" 25002).
  - reflexivity.
  - reflexivity.
  - by apply parse_example_header.
  - intros H. by apply (f_equal (λ m : gmap Z descriptor, m !! 25003)) in H.
  - apply (bool_decide_unpack _). by vm_compute.
  - reflexivity.
  - exists example_table. eexists. split; [by right|reflexivity].
Defined.

End DialectMore.

Module EndpointSpec.
Import Harness HarnessSpec Endpoint.

(** *** The handler in the reader thread *)

Section HandlerSpec.
Context (target_msg_type : string).
Context (dict_str : list (string * pyval) → string).

(** What a call of the handler adds to [received]. *)
Lemma handler_effect vehicle_id m (s : session Z (list reception)) :
  ∃ s',
    (handler target_msg_type dict_str) vehicle_id m s = (Ok tt, s') ∧
    callbacks s' = callbacks s ∧
    shared s'
    = shared s
      ++ (if String.eqb (m_type m) target_msg_type
          then [Reception vehicle_id (m_src m) (m_type m) (m_fields m)]
          else []).
Proof.
  unfold handler.
  destruct (String.eqb (m_type m) target_msg_type).
  - by eexists.
  - exists s. by rewrite app_nil_r.
Qed.

Lemma handlers_run cbs m (s : session Z (list reception)) :
  ∃ s',
    for_each cbs
      (λ cb, try_except_Exception (Harness.call (handler target_msg_type dict_str) cb m)
               (λ e, Harness.print ("Callback error: " +:+ exn_str e))) s
    = (Ok tt, s', (λ cb, (cb, m)) <$> cbs) ∧
    callbacks s' = callbacks s ∧
    shared s'
    = shared s
      ++ (if String.eqb (m_type m) target_msg_type
          then (λ cb, Reception cb (m_src m) (m_type m) (m_fields m)) <$> cbs
          else []).
Proof.
  revert s. induction cbs as [|cb cbs IH]; intros s.
  - exists s. split; [done|]. split; [done|].
    destruct (String.eqb _ _); by rewrite ?fmap_nil, app_nil_r.
  - destruct (handler_effect cb m s) as (s1 & H1 & Hc1 & Hs1).
    destruct (IH s1) as (s2 & H2 & Hc2 & Hs2). exists s2.
    cbn [for_each]. unfold Harness.bind at 1.
    unfold try_except_Exception at 1, Harness.call at 1.
    rewrite H1, H2. split; [done|]. split; [congruence|].
    rewrite Hs2, Hs1, <- app_assoc.
    by destruct (String.eqb _ _).
Qed.

Lemma handler_turn vehicle_id ev stop_set (s : session Z (list reception)) :
  target_msg_type ≠ "*" →
  callbacks s = {[ "*" := [vehicle_id] ]} →
  ∃ s',
    reader_iteration (handler target_msg_type dict_str) ev stop_set s = (Ok tt, s', scheduled ev s) ∧
    callbacks s' = callbacks s ∧
    shared s' = shared s ++ receptions target_msg_type vehicle_id [(ev, stop_set)].
Proof.
  intros Ht Hcb.
  destruct ev as [|m|e].
  - exists s. cbn. by rewrite app_nil_r.
  - unfold reader_iteration. cbn [recv_match scheduled].
    destruct (handlers_run
                (default [] (callbacks s !! m_type m)
                 ++ default [] (callbacks s !! "*")) m s)
      as (s' & H & Hc & Hs).
    exists s'. split; [|split; [done|]].
    + apply try_except_Ok. rewrite bind_ret, !bind_callbacks_get. exact H.
    + rewrite Hs. f_equal. unfold receptions. cbn.
      destruct (String.eqb_spec (m_type m) target_msg_type) as [E|E]; [|done].
      rewrite Hcb, lookup_singleton_ne, lookup_singleton_eq by congruence.
      done.
  - destruct stop_set; cbn; eexists; (split; [done|]);
      by rewrite app_nil_r.
Qed.

Lemma receptions_cons vehicle_id turn turns :
  receptions target_msg_type vehicle_id (turn :: turns)
  = receptions target_msg_type vehicle_id [turn] ++ receptions target_msg_type vehicle_id turns.
Proof.
  unfold receptions. cbn.
  by destruct (match turn.1 with Received _ => _ | _ => _ end).
Qed.

Lemma reader_with_handler vehicle_id turns (s : session Z (list reception)) :
  target_msg_type ≠ "*" →
  callbacks s = {[ "*" := [vehicle_id] ]} →
  ∃ s',
    reader_loop (handler target_msg_type dict_str) turns s
    = (Ok tt, s', scheduled_run (handler target_msg_type dict_str) turns s) ∧
    callbacks s' = callbacks s ∧
    shared s' = shared s ++ receptions target_msg_type vehicle_id turns.
Proof.
  intros Ht. revert s. induction turns as [|[ev stop_set] turns IH]; intros s Hcb.
  - exists s. by rewrite app_nil_r.
  - destruct (handler_turn vehicle_id ev stop_set s Ht Hcb)
      as (s1 & H1 & Hc1 & Hs1).
    destruct (IH s1) as (s2 & H2 & Hc2 & Hs2); [congruence|].
    exists s2. cbn [reader_loop scheduled_run]. unfold Harness.bind.
    rewrite H1. cbn [fst snd]. rewrite H2.
    split; [done|]. split; [congruence|].
    by rewrite Hs2, Hs1, <- app_assoc, <- receptions_cons.
Qed.

(** Before the handler is registered the registry is empty, and what the
    reader is handed is lost. *)
Lemma reader_without_handler turns (s : session Z (list reception)) :
  callbacks s = ∅ →
  ∃ s', reader_loop (handler target_msg_type dict_str) turns s
        = (Ok tt, s', []) ∧
        callbacks s' = ∅ ∧ shared s' = shared s.
Proof.
  revert s. induction turns as [|[ev stop_set] turns IH]; intros s Hcb.
  - by exists s.
  - cbn [reader_loop]. unfold Harness.bind.
    assert (∃ s1, reader_iteration (handler target_msg_type dict_str)
                    ev stop_set s = (Ok tt, s1, []) ∧
                  callbacks s1 = ∅ ∧ shared s1 = shared s)
      as (s1 & -> & Hc & Hs).
    { destruct ev as [|m|e]; [by exists s| |].
      - exists s. unfold reader_iteration. cbn [recv_match]. split; [|done].
        apply try_except_Ok. rewrite bind_ret, !bind_callbacks_get.
        by rewrite Hcb, !lookup_empty.
      - destruct stop_set; cbn; eexists; done. }
    destruct (IH s1 Hc) as (s2 & -> & ? & ?). exists s2.
    split; [done|]. split; [done|]. congruence.
Qed.

(** X16: with the registry as [main] sets it up (the handler of
    [create_handler(vehicle_id)] under ["*"] and nothing else), a run of the
    reader loop never fails and adds to [received] one element for each
    message of the target type it is handed, in their order, with the
    receiver, the sender, the type and the fields of the message; messages
    of other types, timeouts and errors of [recv_match] add nothing.  While
    the registry is still empty, as it is between [connect] and
    [on_message], whatever the reader is handed is lost. *)
Theorem reader_collects_target_messages vehicle_id turns
    (s : session Z (list reception)) :
  target_msg_type ≠ "*" →
  (callbacks s = {[ "*" := [vehicle_id] ]} →
   ∃ s' calls,
     reader_loop (handler target_msg_type dict_str) turns s = (Ok tt, s', calls) ∧
     callbacks s' = callbacks s ∧
     shared s' = shared s ++ receptions target_msg_type vehicle_id turns) ∧
  (callbacks s = ∅ →
   ∃ s',
     reader_loop (handler target_msg_type dict_str) turns s = (Ok tt, s', []) ∧
     shared s' = shared s).
Proof.
  intros Ht. split.
  - intros Hcb.
    destruct (reader_with_handler vehicle_id turns s Ht Hcb) as (s' & ? & ? & ?).
    by eexists _, _.
  - intros Hcb.
    destruct (reader_without_handler turns s Hcb) as (s' & ? & ? & ?).
    by exists s'.
Qed.

End HandlerSpec.

Lemma reader_collects_target_messages_witness :
  ∃ s' calls,
    reader_loop (handler "CHECK_IN" (λ _, "{}"))
      [(Received (heartbeat 1), false); (Received trial_message, false);
       (Timeout, false)]
      (Session {[ "*" := [2] ]} [] [])
    = (Ok tt, s', calls) ∧
    shared s' = [Reception 2 252 "CHECK_IN" [("boot_id", VInt 123)]].
Proof.
  destruct (reader_collects_target_messages "CHECK_IN" (λ _, "{}") 2
              [(Received (heartbeat 1), false); (Received trial_message, false);
               (Timeout, false)]
              (Session {[ "*" := [2] ]} [] [])) as [H _]; [done|].
  destruct (H eq_refl) as (s' & calls & Hr & _ & Hs).
  exists s', calls. split; [exact Hr|]. rewrite Hs. reflexivity.
Defined.

(** *** The main thread *)

Local Open Scope Z_scope.

Lemma wait_loop_unfold self target deadline polls (s : state) :
  wait_loop self target deadline polls s
  = if clock s <? deadline then
      if _conn (deref self s) then
        match polls with
        | [] =>
            seq (idle_until (source_system (this (deref self s))) deadline)
              (ret false) s
        | p :: polls' =>
            bind (external (RecvMatch (source_system (this (deref self s)))) p)
              (λ p,
                 seq (advance (elapsed p))
                   (match got p with
                    | Some msg =>
                        if m_src msg =? target then
                          seq (print (sys_tag (this (deref self s))
                                      +:+ " Heartbeat from system "
                                      +:+ str_of_int target))
                            (ret true)
                        else wait_loop self target deadline polls'
                    | None => wait_loop self target deadline polls'
                    end)) s
        end
      else (Raises (NoneType_has_no "recv_match"), s)
    else (Returns false, s).
Proof.
  destruct polls; cbn [wait_loop]; unfold bind at 1, time_time;
    (destruct (clock s <? deadline); [|done]);
    unfold bind at 1, get; by destruct (_conn (deref self s)).
Qed.

Lemma state_eta (s : state) :
  s = State (clock s + 0) (stdout s ++ []) (calls s ++ []) (obj1 s) (obj2 s).
Proof. destruct s. cbn. by rewrite Z.add_0_r, !app_nil_r. Qed.

Lemma wait_loop_shape polls self target deadline (s : state) :
  _conn (deref self s) = true →
  ∃ r k dt lines,
    wait_loop self target deadline polls s
    = (r, State (clock s + dt) (stdout s ++ lines)
            (calls s
             ++ replicate k (RecvMatch (source_system (this (deref self s)))))
            (obj1 s) (obj2 s)).
Proof.
  revert s. induction polls as [|p polls IH]; intros s Hc;
    rewrite wait_loop_unfold, Hc;
    (destruct (clock s <? deadline) eqn:Hd;
      [|exists (Returns false), 0%nat, 0, []; apply (f_equal (pair _)), state_eta]).
  - unfold seq, bind, idle_until, ret. rewrite Hd.
    eexists _, _, _, []. by rewrite app_nil_r.
  - unfold bind at 1, external. destruct p as [p|e].
    + unfold seq at 1, bind at 1, advance.
      set (s1 := State _ _ _ _ _).
      assert (Hs1 : deref self s1 = deref self s) by (by destruct self).
      assert (∃ r k dt lines,
                wait_loop self target deadline polls s1
                = (r, State (clock s + dt) (stdout s ++ lines)
                        (calls s ++ replicate k
                           (RecvMatch (source_system (this (deref self s)))))
                        (obj1 s) (obj2 s))) as Hrec.
      { destruct (IH s1) as (r & k & dt & lines & ->); [by rewrite Hs1|].
        rewrite Hs1. exists r, (S k), (elapsed p + dt), lines. subst s1. cbn.
        by rewrite <- app_assoc, Z.add_assoc. }
      destruct (got p) as [msg|]; [|done].
      destruct (m_src msg =? target); [|done].
      unfold seq, bind, print, ret. subst s1. cbn.
      by eexists _, 1%nat, _, [_].
    + exists (Raises e), 1%nat, 0, []. cbn. by rewrite Z.add_0_r, app_nil_r.
Qed.

Lemma print_all_shape lines (s : state) :
  print_all lines s
  = (Returns tt, State (clock s) (stdout s ++ lines) (calls s) (obj1 s) (obj2 s)).
Proof.
  revert s. induction lines as [|line lines IH]; intros s.
  - destruct s. cbn. by rewrite app_nil_r.
  - cbn [print_all]. unfold seq, bind, print. rewrite IH. cbn.
    by rewrite <- app_assoc.
Qed.

Lemma wait_loop_raises polls self target deadline (s : state) e s' :
  wait_loop self target deadline polls s = (Raises e, s') →
  _conn (deref self s) = true → Raises e ∈ polls.
Proof.
  revert s. induction polls as [|p polls IH]; intros s;
    rewrite wait_loop_unfold; intros H Hc; rewrite Hc in H;
    (destruct (clock s <? deadline); [|done]).
  - done.
  - unfold bind at 1, external in H. destruct p as [p|e'].
    + right. unfold seq at 1, bind at 1, advance in H.
      destruct (got p) as [msg|];
        [destruct (m_src msg =? target); [done|]|];
        (eapply IH; [exact H|by destruct self]).
    + injection H as -> _. by left.
Qed.

Local Opaque str_of_int sys_tag rule nl.

Ltac run_unfold :=
  unfold main_try, try_finally, try_except_KeyboardInterrupt, main_body,
    connect, close, send_message, on_message, wait_heartbeat_from,
    seq, bind, external, print, get, set, ret, raise, advance,
    time_time, entry, __init__, set_conn, set_stop_evt, set_reader_th.

(** The term a computation is waiting for. *)
Ltac stuck t :=
  lazymatch t with
  | match ?m with (_, _) => _ end => stuck m
  | match ?o with Returns _ => _ | Raises _ => _ end => stuck o
  | match ?o with Exception _ => _ | KeyboardInterrupt => _ end => stuck o
  | match ?o with Some _ => _ | None => _ end => stuck o
  | match ?o with [] => _ | _ :: _ => _ end => stuck o
  | (match ?o with Some _ => _ | None => _ end) _ => stuck o
  | (match ?o with [] => _ | _ :: _ => _ end) _ => stuck o
  | (if ?o then _ else _) _ => stuck o
  | if ?o then _ else _ => stuck o
  | _ => t
  end.

Ltac run_step :=
  lazymatch goal with
  | |- ?lhs = _ → _ =>
      let t := stuck lhs in
      lazymatch t with
      | (_, _) => fail
      | wait_loop ?self ?tg ?d ?polls ?s =>
          let W := fresh "W" in
          let r := fresh "r" in
          destruct (wait_loop_shape polls self tg d s eq_refl)
            as (r & ? & ? & ? & W);
          pose proof (λ e s', wait_loop_raises polls self tg d s e s') as ?;
          rewrite W in *; clear W; destruct r as [?|?]
      | print_all _ _ => rewrite print_all_shape
      | _ => destruct t eqn:?
      end
  end;
  cbn.

Lemma experiment x a message msg now out r s' :
  main_try x a message msg (entry a now out) = (r, s') → True.
Proof.
  run_unfold. cbn.
  repeat run_step.
  all: try (intros [= <- <-]).
  all: try exact I.
Abort.

End EndpointSpec.
